(** * Glue code of the OpenVINO notebooks

    A shallow embedding of the hand-written Python helpers found in the
    notebooks: the grammar-correction pipeline ([split_text],
    [correct_text]), the quantization plug-ins ([CifarDataLoader],
    [Accuracy], [LibriSpeechDataLoader]), the two speech inference helpers
    ([torch_infer], [ov_infer]) and the case split of [DataModule.setup].

    Python values are modelled as follows: [str] as [string] (a sequence
    of 8-bit characters), [int] as [Z], a finite [float] as [Q] with its
    exact order, a [float] that may be NaN as [float], lists as [list],
    [set] as [gset], and a call that may raise as a value of [result]. *)

From Stdlib Require Import QArith Ascii String.
From stdpp Require Import base list strings pretty gmap numbers.

Local Open Scope Z_scope.

(** ** Exceptions and results *)

Inductive exn : Type :=
  | Exception (msg : string)
  | IndexError
  | ValueError
  | StopIteration.

Inductive result (A : Type) : Type :=
  | Ok (a : A)
  | Raise (e : exn).
Arguments Ok {A} a.
Arguments Raise {A} e.

#[global] Instance result_ret : MRet result := fun A a => Ok a.
#[global] Instance result_bind : MBind result := fun A B f m =>
  match m with
  | Ok a => f a
  | Raise e => Raise e
  end.

Definition raises {A} (r : result A) : Prop :=
  match r with Ok _ => False | Raise _ => True end.

(** [mapM] for [result]: a list comprehension whose body may raise. *)
Fixpoint comprehension {A B} (f : A → result B) (l : list A) : result (list B) :=
  match l with
  | [] => Ok []
  | x :: l' => y ← f x; ys ← comprehension f l'; Ok (y :: ys)
  end.

(** ** Python sequences *)

(** [l[i]] with negative indices counted from the end. *)
Definition py_index {A} (l : list A) (i : Z) : result A :=
  let n := Z.of_nat (length l) in
  let j := if i <? 0 then i + n else i in
  if (0 <=? j) && (j <? n)
  then match l !! Z.to_nat j with
       | Some x => Ok x
       | None => Raise IndexError
       end
  else Raise IndexError.

(** [l[start:]]. *)
Definition py_slice_from {A} (start : Z) (l : list A) : list A :=
  let n := Z.of_nat (length l) in
  let s := if start <? 0 then Z.max (start + n) 0 else Z.min start n in
  drop (Z.to_nat s) l.

(** [enumerate(l)]. *)
Definition enumerate {A} (l : list A) : list (Z * A) :=
  imap (fun i x => (Z.of_nat i, x)) l.

(** A float: [nan] or a finite number. *)
Inductive float : Type :=
  | nan
  | finite (q : Q).

(** ** Grammar notebook: sentence splitting *)

Module Grammar.

Definition is_upper (c : ascii) : bool :=
  let n := nat_of_ascii c in (65 <=? n)%nat && (n <=? 90)%nat.

Definition is_space (c : ascii) : bool := bool_decide (c = " "%char).
Definition is_newline (c : ascii) : bool := bool_decide (c = "010"%char).
Definition is_stop (c : ascii) : bool :=
  bool_decide (c = "."%char) || bool_decide (c = "?"%char).

(** The look-behind [(?<=[^A-Z].[.?])] on the text before the current
    position (given reversed, nearest character first). *)
Definition lookbehind (before : list ascii) : bool :=
  match before with
  | c1 :: c2 :: c3 :: _ => is_stop c1 && negb (is_newline c2) && negb (is_upper c3)
  | _ => false
  end.

(** Length of the leading run of spaces of [after], and what follows it. *)
Fixpoint spaces (after : list ascii) : nat * list ascii :=
  match after with
  | c :: rest =>
      if is_space c then let '(n, tl) := spaces rest in (S n, tl) else (O, after)
  | [] => (O, [])
  end.

(** Length of the match of [(?<=[^A-Z].[.?]) +(?=[A-Z])] that starts at
    the current position, if there is one.  The greedy [ +] is followed by
    a look-ahead for a capital, so only the whole run of spaces can match. *)
Definition match_here (before after : list ascii) : option nat :=
  if lookbehind before then
    match spaces after with
    | (S n, c :: _) => if is_upper c then Some (S n) else None
    | _ => None
    end
  else None.

(** [re.split]: scan left to right; [skip] counts the characters of the
    current match still to be consumed, [cur] is the piece being collected
    (reversed) and [before] everything already read (reversed). *)
Fixpoint re_split_scan (before cur : list ascii) (skip : nat) (after : list ascii)
  : list (list ascii) :=
  match after with
  | [] => [rev cur]
  | c :: rest =>
      match skip with
      | S k => re_split_scan (c :: before) cur k rest
      | O =>
          match match_here before after with
          | Some (S k) => rev cur :: re_split_scan (c :: before) [] k rest
          | _ => re_split_scan (c :: before) (c :: cur) O rest
          end
      end
  end.

Definition re_split (text : string) : list string :=
  string_of_list_ascii <$> re_split_scan [] [] O (list_ascii_of_string text).

(** One iteration of the [for sentence in sentences] loop; the state is
    [(sentence_batches, temp_batch)]. *)
Definition split_step (sentences : list string)
    (st : list (list string) * list string) (sentence : string)
  : result (list (list string) * list string) :=
  let '(sentence_batches, temp_batch) := st in
  let temp_batch := temp_batch ++ [sentence] in
  let n := length temp_batch in
  if (2 <=? n)%nat && (n <=? 3)%nat
  then Ok (sentence_batches ++ [temp_batch], [])
  else
    final ← py_index sentences (-1);
    if bool_decide (sentence = final)
    then Ok (sentence_batches ++ [temp_batch], [])
    else Ok (sentence_batches, temp_batch).

Fixpoint split_loop (sentences : list string)
    (st : list (list string) * list string) (todo : list string)
  : result (list (list string) * list string) :=
  match todo with
  | [] => Ok st
  | sentence :: todo' =>
      st' ← split_step sentences st sentence;
      split_loop sentences st' todo'
  end.

Definition batch_sentences (sentences : list string) : result (list (list string)) :=
  st ← split_loop sentences ([], []) sentences;
  Ok st.1.

Definition split_text (text : string) : result (list (list string)) :=
  batch_sentences (re_split text).

(** A batch of one or two sentences. *)
Definition small (b : list string) : Prop := length b = 1%nat ∨ length b = 2%nat.

(** ** Grammar notebook: correction loop *)

(** The double nearest to the literal [0.9]. *)
Definition threshold : Q := 8106479329266893 # 9007199254740992.

Definition float_lt (x y : Q) : bool := negb (Qle_bool y x).
Definition float_ge (x y : Q) : bool := Qle_bool y x.

(** [score < y] and [score >= y] for a score that may be NaN: both
    comparisons are false on NaN. *)
Definition score_lt (score : float) (y : Q) : bool :=
  match score with
  | nan => false
  | finite x => float_lt x y
  end.

Definition score_ge (score : float) (y : Q) : bool :=
  match score with
  | nan => false
  | finite x => float_ge x y
  end.

Section CorrectText.
(** The two pipelines are oracles: [checker raw_text] stands for
    [results[0]] as the pair of its ["label"] and ["score"], and
    [corrector raw_text] for [corrected_batch[0]["generated_text"]]. *)
Variable checker : string → string * float.
Variable corrector : string → string.

Definition correct_step (corrected_text : list string) (batch : list string)
  : list string :=
  let raw_text := String.concat " " batch in
  let '(label, score) := checker raw_text in
  if negb (bool_decide (label = "LABEL_1"))
     || (bool_decide (label = "LABEL_1") && score_lt score threshold)
  then corrected_text ++ [corrector raw_text]
  else corrected_text ++ [raw_text].

Definition correct_text (text : string) (separator : string) : result string :=
  sentence_batches ← split_text text;
  let corrected_text := foldl correct_step [] sentence_batches in
  Ok (String.concat separator corrected_text).

(** The output string of one batch: the raw text when the label is
    [LABEL_1] and the score is not below 0.9, the corrector's text
    otherwise. *)
Definition batch_output (batch : list string) : string :=
  let raw_text := String.concat " " batch in
  if bool_decide ((checker raw_text).1 = "LABEL_1")
     && negb (score_lt (checker raw_text).2 threshold)
  then raw_text
  else corrector raw_text.

(** The output string of one batch in the words of the claim: the raw text
    exactly when the label is [LABEL_1] and [score >= 0.9]. *)
Definition claimed_output (batch : list string) : string :=
  let raw_text := String.concat " " batch in
  if bool_decide ((checker raw_text).1 = "LABEL_1")
     && score_ge (checker raw_text).2 threshold
  then raw_text
  else corrector raw_text.
End CorrectText.

End Grammar.

(** ** Classification notebook: the POT plug-ins *)

(** A two-dimensional array of floats, one row per sample. *)
Abbreviation ndarray2 := (list (list Q)).

(** [np.ravel(m)] of a list of lists.  Rows of unequal length do not form
    an array: NumPy raises [ValueError] (releases before 1.24 build an
    array of list objects instead, on which [mean] raises). *)
Definition np_ravel (m : list (list Q)) : result (list Q) :=
  match m with
  | [] => Ok []
  | r :: rs =>
      if forallb (fun r' => (length r' =? length r)%nat) rs
      then Ok (concat m)
      else Raise ValueError
  end.

Definition Qsum (a : list Q) : Q := foldr Qplus (0 # 1) a.

(** [a.mean()]; the mean of an empty array is [nan]. *)
Definition np_mean (a : list Q) : float :=
  match a with
  | [] => nan
  | _ => finite (Qdiv (Qsum a) (inject_Z (Z.of_nat (length a))))
  end.

(** [float(b)] of a boolean. *)
Definition float_of_bool (b : bool) : Q := if b then 1 # 1 else 0 # 1.

Module CifarDataLoader.
Section Loader.
Context {Image Array : Type}.
(** [image.numpy()]. *)
Variable numpy : Image → Array.

Record t := { dataset : list (Image * Z) }.

Definition init (config : string) (global_dataset : list (Image * Z)) : t :=
  {| dataset := global_dataset |}.

Definition len (self : t) : Z := Z.of_nat (length (dataset self)).

Definition getitem (self : t) (index : Z) : result ((Z * Z) * Array) :=
  '(image, label) ← py_index (dataset self) index;
  Ok ((index, label), numpy image).
End Loader.
End CifarDataLoader.

Module Accuracy.

(** [target] is a list of labels or a dict whose values are the labels
    (kept in insertion order). *)
Inductive annotations : Type :=
  | AsList (l : list Z)
  | AsDict (d : list (string * Z)).

Record t := {
  _top_k : Z;
  _name : string;
  _matches : list (list Q)
}.

Definition init (top_k : Z) : t :=
  {| _top_k := top_k;
     _name := "accuracy@top" +:+ pretty top_k;
     _matches := [] |}.

Definition value (self : t) : result (list (string * list Q)) :=
  m ← py_index (_matches self) (-1);
  Ok [(_name self, m)].

Definition avg_value (self : t) : result (list (string * float)) :=
  a ← np_ravel (_matches self);
  Ok [(_name self, np_mean a)].

Definition reset (self : t) : t :=
  {| _top_k := _top_k self; _name := _name self; _matches := [] |}.

Definition labels (target : annotations) : list Z :=
  match target with
  | AsList l => l
  | AsDict d => d.*2
  end.

Section Update.
(** [np.argsort] of one row: the column indices ordered by increasing
    value.  The order among equal values is left to NumPy. *)
Variable np_argsort : list Q → list Z.

(** [np.argsort(a, axis=1)[:, -top_k:]]. *)
Definition top_predictions (top_k : Z) (a : ndarray2) : list (list Z) :=
  (fun row => py_slice_from (- top_k) (np_argsort row)) <$> a.

(** The part of [update] before the append: it computes [match]. *)
Definition update_match (self : t) (output : list ndarray2) (target : annotations)
  : result (list Q) :=
  if (1 <? Z.of_nat (length output))
  then Raise (Exception
    "The accuracy metric cannot be calculated for a model with multiple outputs")
  else
    let target := labels target in
    a ← py_index output 0;
    let predictions := top_predictions (_top_k self) a in
    comprehension
      (fun '(i, t) => p ← py_index predictions i;
                      Ok (float_of_bool (bool_decide (t ∈ p))))
      (enumerate target).

(** [update] returns its outcome together with the object afterwards. *)
Definition update (self : t) (output : list ndarray2) (target : annotations)
  : result () * t :=
  match update_match self output target with
  | Ok m =>
      (Ok (), {| _top_k := _top_k self; _name := _name self;
                 _matches := _matches self ++ [m] |})
  | Raise e => (Raise e, self)
  end.

(** A sequence of calls of [update], all of which return. *)
Fixpoint updates (self : t) (calls : list (list ndarray2 * annotations)) : option t :=
  match calls with
  | [] => Some self
  | (output, target) :: calls' =>
      match update self output target with
      | (Ok _, self') => updates self' calls'
      | (Raise _, _) => None
      end
  end.

(** The per-sample match indicators the claims speak of: sample [i] with
    label [t] scores 1.0 when [t] is among the top-k class indices of row
    [i], and 0.0 otherwise. *)
Definition indicators (top_k : Z) (call : list ndarray2 * annotations) : list Q :=
  zip_with (fun p t => float_of_bool (bool_decide (t ∈ p)))
           (top_predictions top_k (default [] (head call.1)))
           (labels call.2).
End Update.

(** A stable insertion sort on (value, index) pairs, as one instance of
    [np.argsort]. *)
Fixpoint insert_sorted (x : Q * Z) (l : list (Q * Z)) : list (Q * Z) :=
  match l with
  | [] => [x]
  | y :: l' => if Qle_bool x.1 y.1 then x :: l else y :: insert_sorted x l'
  end.

Definition stable_argsort (row : list Q) : list Z :=
  (foldr insert_sorted [] (imap (fun i v => (v, Z.of_nat i)) row)).*2.

End Accuracy.

(** ** Speech notebook *)

Module Speech.

Record sample := {
  input_values : list (list Q);
  text : string
}.

Module LibriSpeechDataLoader.

Record t := {
  _ds : list sample;
  sample_limit : option Z
}.

Definition init (dataset : list sample) (sample_limit : option Z) : t :=
  {| _ds := dataset; sample_limit := None |}.

(** [self.sample_limit or len(self._ds)]. *)
Definition len (self : t) : Z :=
  match sample_limit self with
  | Some n => if n =? 0 then Z.of_nat (length (_ds self)) else n
  | None => Z.of_nat (length (_ds self))
  end.

Definition getitem (self : t) (index : Z)
  : result (list (string * list (list Q)) * list string) :=
  if match sample_limit self with
     | Some limit => limit <=? index
     | None => false
     end
  then Raise StopIteration
  else
    sample ← py_index (_ds self) index;
    let inputs := [("inputs"%string, input_values sample)] in
    let label := [text sample] in
    Ok (inputs, label).

End LibriSpeechDataLoader.

(** Logits of shape (batch, time, vocabulary). *)
Abbreviation logits := (list (list (list Q))).

(** [np.argmax] of one row: a left-to-right scan that replaces the running
    maximum only by a strictly greater value. *)
Fixpoint np_argmax_scan (row : list Q) (i : Z) (mp : Q) (max_ind : Z) : Z :=
  match row with
  | [] => max_ind
  | x :: row' =>
      if Grammar.float_lt mp x
      then np_argmax_scan row' (i + 1) x i
      else np_argmax_scan row' (i + 1) mp max_ind
  end.

Definition np_argmax_row (row : list Q) : result Z :=
  match row with
  | [] => Raise ValueError
  | x :: row' => Ok (np_argmax_scan row' 1 x 0)
  end.

(** [torch.argmax] of one row: a reduction whose combining step keeps the
    greater value and, between equal values, the smaller index. *)
Definition torch_argmax_combine (a b : Q * Z) : Q * Z :=
  if Grammar.float_lt b.1 a.1 then a
  else if Grammar.float_lt a.1 b.1 then b
  else if a.2 <? b.2 then a else b.

Fixpoint torch_argmax_reduce (row : list Q) (i : Z) : option (Q * Z) :=
  match row with
  | [] => None
  | x :: row' =>
      match torch_argmax_reduce row' (i + 1) with
      | None => Some (x, i)
      | Some r => Some (torch_argmax_combine (x, i) r)
      end
  end.

Definition torch_argmax_row (row : list Q) : result Z :=
  match torch_argmax_reduce row 0 with
  | Some r => Ok r.2
  | None => Raise IndexError
  end.

(** [argmax] over the last axis. *)
Definition np_argmax (l : logits) : result (list (list Z)) :=
  comprehension (comprehension np_argmax_row) l.

Definition torch_argmax (l : logits) : result (list (list Z)) :=
  comprehension (comprehension torch_argmax_row) l.

Section Infer.
(** [processor.batch_decode], an oracle. *)
Variable batch_decode : list (list Z) → list string.

Definition torch_infer (model : list (list Q) → logits) (sample : sample)
  : result (list string) :=
  let logits := model (input_values sample) in
  predicted_ids ← torch_argmax logits;
  let transcription := batch_decode predicted_ids in
  Ok transcription.

Definition ov_infer (model : list (list Q) → logits) (sample : sample)
  : result (list string) :=
  let logits := model (input_values sample) in
  predicted_ids ← np_argmax logits;
  let transcription := batch_decode predicted_ids in
  Ok transcription.
End Infer.

End Speech.

(** ** Segmentation notebook: the case split of [DataModule.setup] *)

Module DataModule.

Definition val_indices : list Z :=
  [7; 10; 14; 15; 30; 60; 71; 74; 75; 81; 92; 93;
   106; 115; 117; 119; 134; 161; 192; 196; 203].

Definition test_indices : list Z := [2; 5; 37; 103; 174].

(** [set(list(range(210))) - set(val_indices) - set(test_indices)]. *)
Definition train_indices : gset Z :=
  list_to_set (seqZ 0 210) ∖ list_to_set val_indices ∖ list_to_set test_indices.

(** [s] padded with zeros on the left to [width] characters. *)
Definition zfill (width : nat) (s : string) : string :=
  string_of_list_ascii (replicate (width - String.length s) "0"%char) +:+ s.

(** [f"{i:05d}"]: the sign counts towards the width. *)
Definition format_05d (i : Z) : string :=
  if i <? 0 then "-" +:+ zfill 4 (pretty (Z.abs i)) else zfill 5 (pretty i).

Definition case_name (i : Z) : string := "case_" +:+ format_05d i.

(** A path matched by [case_*/segmentation_frames/*png] or
    [case_*/imaging_frames/*jpg] below the data directory. *)
Record frame := {
  case_dir : string;
  frames_dir : string;
  file_name : string
}.

(** [Path(p).parents[1].name]. *)
Definition parents1_name (p : frame) : string := case_dir p.

Record datasets := {
  train_segs : list frame;
  val_segs : list frame;
  train_images : list frame;
  val_images : list frame
}.

Definition val_cases : list string := case_name <$> val_indices.
Definition train_cases : list string := case_name <$> elements train_indices.

(** The file lists built by [setup] from the sorted glob results. *)
Definition setup (segs images : list frame) : datasets :=
  {| train_segs := filter (fun seg => parents1_name seg ∈ train_cases) segs;
     val_segs := filter (fun seg => parents1_name seg ∈ val_cases) segs;
     train_images := filter (fun im => parents1_name im ∈ train_cases) images;
     val_images := filter (fun im => parents1_name im ∈ val_cases) images |}.

End DataModule.

(** ** Further helpers of the notebooks *)

(** Errors of the helpers below: a failed [assert], a division by zero, or
    one of the exceptions of [exn]. *)
Inductive error : Type :=
  | AssertionError (msg : string)
  | ZeroDivisionError
  | Builtin (e : exn).

Inductive outcome (A : Type) : Type :=
  | Returns (a : A)
  | Throws (e : error).
Arguments Returns {A} a.
Arguments Throws {A} e.

#[global] Instance outcome_ret : MRet outcome := fun A a => Returns a.
#[global] Instance outcome_bind : MBind outcome := fun A B f m =>
  match m with
  | Returns a => f a
  | Throws e => Throws e
  end.

Definition lift {A} (r : result A) : outcome A :=
  match r with
  | Ok a => Returns a
  | Raise e => Throws (Builtin e)
  end.

(** A [for] loop whose body may raise, threading the loop state. *)
Fixpoint for_each {S A} (body : S → A → outcome S) (s : S) (l : list A) : outcome S :=
  match l with
  | [] => Returns s
  | x :: l' => s' ← body s x; for_each body s' l'
  end.

Fixpoint for_each_result {S A} (body : S → A → result S) (s : S) (l : list A) : result S :=
  match l with
  | [] => Ok s
  | x :: l' => s' ← body s x; for_each_result body s' l'
  end.

(** *** Classification notebook: [Accuracy] as the engine drives it *)

Module AccuracyCalls.

Definition get_attributes (self : Accuracy.t)
  : list (string * list (string * string)) :=
  [(Accuracy._name self,
    [("direction", "higher-better"); ("type", "accuracy")])]%string.

(** A match indicator is 1.0 or 0.0. *)
Definition indicator (q : Q) : Prop := q = 1 # 1 ∨ q = 0 # 1.

(** A call made on the metric object. *)
Inductive call : Type :=
  | Update (output : list ndarray2) (target : Accuracy.annotations)
  | Reset.

(** The object after one call; an [update] that raises leaves it as it
    was. *)
Definition after (np_argsort : list Q → list Z) (self : Accuracy.t) (c : call)
  : Accuracy.t :=
  match c with
  | Update output target => (Accuracy.update np_argsort self output target).2
  | Reset => Accuracy.reset self
  end.

Definition run (np_argsort : list Q → list Z) (self : Accuracy.t) (calls : list call)
  : Accuracy.t :=
  foldl (after np_argsort) self calls.

End AccuracyCalls.

(** *** Classification notebook: pictures and labels *)

Module CifarPictures.

Section LoadData.
Context {Image : Type}.

(** One iteration of [for idx, sample in enumerate(dataset)] in
    [CifarDataLoader.load_data]; the state is
    [(pictures, labels, indexes)]. *)
Definition load_data_step
    (st : list Image * list Z * list Z) (item : Z * (Image * Z))
  : list Image * list Z * list Z :=
  let '(pictures, labels, indexes) := st in
  let '(idx, sample) := item in
  (pictures ++ [sample.1], labels ++ [sample.2], indexes ++ [idx]).

(** [load_data] returns [indexes, pictures, labels]. *)
Definition load_data (dataset : list (Image * Z))
  : list Z * list Image * list Z :=
  let '(pictures, labels, indexes) :=
    foldl load_data_step ([], [], []) (enumerate dataset) in
  (indexes, pictures, labels).
End LoadData.

Definition labels_names : list string :=
  ["airplane"; "automobile"; "bird"; "cat"; "deer"; "dog"; "frog"; "horse";
   "ship"; "truck"]%string.

Section Infer.
Context {Picture : Type}.
(** [model([picture[None,]])[output_key]]: one row of scores per batch
    entry. *)
Variable model : Picture → list (list Q).

(** The body of [for idx in indexes] in [infer_on_pictures]. *)
Definition infer_step (all_pictures : list Picture)
    (predicted_labels : list string) (idx : Z) : outcome (list string) :=
  if negb (idx <? 10000)
  then Throws (AssertionError "Cannot get such index, there are only 10000")
  else
    picture ← lift (py_index all_pictures idx);
    let result := model picture in
    row ← lift (py_index result 0);
    k ← lift (Speech.np_argmax_row row);
    name ← lift (py_index labels_names k);
    Returns (predicted_labels ++ [name]).

Definition infer_on_pictures (indexes : list Z) (all_pictures : list Picture)
  : outcome (list string) :=
  for_each (infer_step all_pictures) [] indexes.
End Infer.

End CifarPictures.

(** *** Speech notebook: word error rate *)

Module SpeechWER.

Section WordErrorRate.
(** torchmetrics' [WordErrorRate] is an oracle: [WER] is the state of the
    metric object, [Target] the type of one reference. *)
Context {WER Target : Type}.
Variable wer_new : WER.
(** [wer.update(preds, target)]. *)
Variable wer_update : WER → list string → list string → WER.
(** [wer.forward(preds, target).item()]: the value on this batch, and the
    metric object with the batch accumulated. *)
Variable wer_forward : WER → list string → Target → Q * WER.
(** [wer.compute()]. *)
Variable wer_compute : WER → Q.
(** [processor.batch_decode]. *)
Variable batch_decode : list (list Z) → list string.

Definition compute_wer_step
    (infer_fn : (list (list Q) → Speech.logits) → Speech.sample → result (list string))
    (model : list (list Q) → Speech.logits) (wer : WER) (sample : Speech.sample)
  : result WER :=
  transcription ← infer_fn model sample;
  Ok (wer_update wer transcription [Speech.text sample]).

Definition compute_wer (dataset : list Speech.sample)
    (model : list (list Q) → Speech.logits)
    (infer_fn : (list (list Q) → Speech.logits) → Speech.sample → result (list string))
  : result Q :=
  wer ← for_each_result (compute_wer_step infer_fn model) wer_new dataset;
  let result := wer_compute wer in
  Ok result.

(** [WERMetric], from its [reset()] on. *)
Record t := {
  _name : string;
  _wer : WER;
  _last_result : option (list Q)
}.

Definition reset (self : t) : t :=
  {| _name := _name self; _wer := wer_new; _last_result := None |}.

(** What [value] reports: the per-sample list of the last update, or one
    number. *)
Inductive reported : Type :=
  | PerSample (res : list Q)
  | Overall (r : Q).

Definition value (self : t) : list (string * reported) :=
  [(_name self,
    match _last_result self with
    | Some res => PerSample res
    | None => Overall (wer_compute (_wer self))
    end)].

Definition avg_value (self : t) : list (string * Q) :=
  [(_name self, wer_compute (_wer self))].

Definition get_attributes (self : t) : list (string * list (string * string)) :=
  [(_name self, [("direction", "higher-worse"); ("type", "WER")])]%string.

(** One iteration of [for pred, gt in zip(...)]; the state is the metric
    object and [res]. *)
Definition score_step (st : WER * list Q) (pair : string * Target) : WER * list Q :=
  let '(wer, res) := st in
  let '(pred, gt) := pair in
  let '(v, wer') := wer_forward wer [pred] gt in
  (wer', res ++ [v]).

Definition update (self : t) (output : list Speech.logits) (target : list Target)
  : result (list Q) * t :=
  match
    res ← py_index output 0;
    predicted_ids ← Speech.np_argmax res;
    Ok (batch_decode predicted_ids)
  with
  | Raise e => (Raise e, self)
  | Ok predicted_transcription =>
      let '(wer, res) :=
        foldl score_step (_wer self, []) (zip predicted_transcription target) in
      (Ok res, {| _name := _name self; _wer := wer; _last_result := Some res |})
  end.
End WordErrorRate.

End SpeechWER.

(** *** Segmentation notebook: validation bookkeeping of [MonaiModel] *)

Module MonaiModel.

(** One entry of [validation_step_outputs]. *)
Record step_output := {
  val_loss : Q;
  val_number : Z
}.

Section Model.
(** The F1 metric object, the batches and the network are oracles. *)
Context {Metric Batch : Type}.
(** [self.metric.update(y_true, y_pred)] for the batch. *)
Variable metric_update : Metric → Batch → Metric.
Variable metric_compute : Metric → Q.
Variable metric_reset : Metric → Metric.
(** [self.loss_function(self.forward(images), labels)] and
    [len(self.forward(images))]. *)
Variable batch_loss : Batch → Q.
Variable batch_len : Batch → nat.

Record t := {
  metric : Metric;
  best_val_dice : Q;
  best_val_epoch : Z;
  validation_step_outputs : list step_output;
  (** calls of [self.logger.experiment.add_scalar(tag, value, epoch)] *)
  scalars : list (string * Q * Z);
  (** calls of [self.log(name, value)] *)
  logged : list (string * Q)
}.

Definition init (fresh_metric : Metric) : t :=
  {| metric := fresh_metric;
     best_val_dice := 0 # 1;
     best_val_epoch := 0;
     validation_step_outputs := [];
     scalars := [];
     logged := [] |}.

Definition validation_step (self : t) (batch : Batch) : step_output * t :=
  let loss := batch_loss batch in
  let out := {| val_loss := loss; val_number := Z.of_nat (batch_len batch) |} in
  (out,
   {| metric := metric_update (metric self) batch;
      best_val_dice := best_val_dice self;
      best_val_epoch := best_val_epoch self;
      validation_step_outputs := validation_step_outputs self ++ [out];
      scalars := scalars self;
      logged := logged self ++ [("val_loss"%string, loss)] |}).

(** The accumulation loop of [on_validation_epoch_end]; the state is
    [(val_loss, num_items)]. *)
Definition epoch_sums (outputs : list step_output) : Q * Z :=
  foldl (fun '(val_loss, num_items) output =>
           (Qplus val_loss (MonaiModel.val_loss output),
            num_items + val_number output))
        (0 # 1, 0) outputs.

(** [on_validation_epoch_end] returns its outcome together with the object
    afterwards: when the division raises, the metric has been reset
    already and nothing else has changed. *)
Definition on_validation_epoch_end (self : t) (current_epoch : Z)
  : outcome () * t :=
  let '(val_loss, num_items) := epoch_sums (validation_step_outputs self) in
  let mean_val_dice := metric_compute (metric self) in
  let metric' := metric_reset (metric self) in
  if num_items =? 0
  then (Throws ZeroDivisionError,
        {| metric := metric';
           best_val_dice := best_val_dice self;
           best_val_epoch := best_val_epoch self;
           validation_step_outputs := validation_step_outputs self;
           scalars := scalars self;
           logged := logged self |})
  else
    let mean_val_loss := Qdiv val_loss (inject_Z num_items) in
    let improved := Grammar.float_lt (best_val_dice self) mean_val_dice in
    (Returns (),
     {| metric := metric';
        best_val_dice := if improved then mean_val_dice else best_val_dice self;
        best_val_epoch := if improved then current_epoch else best_val_epoch self;
        validation_step_outputs := [];
        scalars := scalars self
                   ++ [("Loss/Validation"%string, mean_val_loss, current_epoch);
                       ("F1-score/Validation"%string, mean_val_dice, current_epoch)];
        logged := logged self ++ [("F1"%string, mean_val_dice)] |}).

(** What the trainer does with the object during validation. *)
Inductive event : Type :=
  | Step (batch : Batch)
  | EpochEnd (current_epoch : Z).

Definition after (self : t) (e : event) : t :=
  match e with
  | Step batch => (validation_step self batch).2
  | EpochEnd current_epoch => (on_validation_epoch_end self current_epoch).2
  end.

Definition run (self : t) (events : list event) : t := foldl after self events.

(** The best score bounds every F1 value logged, it is 0 or one of them,
    and the best epoch is the epoch of a scalar with that score. *)
Definition consistent (self : t) : Prop :=
  (∀ v, ("F1"%string, v) ∈ logged self → (v <= best_val_dice self)%Q)
  ∧ (best_val_dice self = 0 # 1
     ∨ ("F1"%string, best_val_dice self) ∈ logged self)
  ∧ ((best_val_dice self = 0 # 1 ∧ best_val_epoch self = 0)
     ∨ ("F1-score/Validation"%string, best_val_dice self, best_val_epoch self)
       ∈ scalars self).
End Model.

End MonaiModel.

(** *** Grammar notebook: shapes of texts and sentences *)

Module GrammarShape.

(** No two spaces of the text are adjacent. *)
Fixpoint single_spaced (l : list ascii) : bool :=
  match l with
  | c1 :: tl =>
      match tl with
      | c2 :: _ => negb (Grammar.is_space c1 && Grammar.is_space c2)
      | [] => true
      end && single_spaced tl
  | [] => true
  end.

(** The sentence starts with a capital letter A-Z. *)
Definition starts_upper (s : list ascii) : Prop :=
  ∃ c rest, s = c :: rest ∧ Grammar.is_upper c = true.

(** The sentence ends with a full stop or question mark. *)
Definition ends_stop (s : list ascii) : Prop :=
  ∃ front c, s = front ++ [c] ∧ Grammar.is_stop c = true.

(** [P] holds of every element but the last. *)
Fixpoint all_but_last {A} (P : A → Prop) (l : list A) : Prop :=
  match l with
  | [] => True
  | x :: tl =>
      match tl with
      | [] => True
      | _ :: _ => P x ∧ all_but_last P tl
      end
  end.

(** What the scan knows about the text read so far: pending characters of
    a match are spaces, an empty [cur] does not follow a full stop, and
    otherwise [cur] ends where the text read ends. *)
Definition synced (before cur : list ascii) (skip : nat) (after : list ascii) : Prop :=
  Forall (fun c => Grammar.is_space c = true) (take skip after)
  ∧ (cur = [] → skip = O → ∀ b tl, before = b :: tl → Grammar.is_stop b = false)
  ∧ (cur ≠ [] → skip = O ∧ head cur = head before).

(** The checker accepts a raw text: [LABEL_1] with a score of at least
    0.9. *)
Definition accepts (checker : string → string * float) (raw_text : string) : Prop :=
  (checker raw_text).1 = "LABEL_1"%string
  ∧ match (checker raw_text).2 with
    | nan => False
    | finite score => (Grammar.threshold <= score)%Q
    end.

End GrammarShape.

(** * Properties *)

(** ** Python sequences *)

Lemma py_index_last {A} (l : list A) (x : A) :
  list.last l = Some x → py_index l (-1) = Ok x.
Proof.
  intros Hl. rewrite last_lookup in Hl.
  assert (length l ≠ O) as Hn by (intros E; destruct l; simplify_eq/=).
  unfold py_index.
  replace (-1 <? 0) with true by reflexivity.
  replace (Z.to_nat (-1 + Z.of_nat (length l))) with (pred (length l)) by lia.
  rewrite Hl.
  destruct (Z.leb_spec 0 (-1 + Z.of_nat (length l))); [|lia].
  destruct (Z.ltb_spec (-1 + Z.of_nat (length l)) (Z.of_nat (length l))); [|lia].
  reflexivity.
Qed.

Lemma py_index_nat {A} (l : list A) (i : nat) :
  py_index l (Z.of_nat i) =
  match l !! i with Some x => Ok x | None => Raise IndexError end.
Proof.
  unfold py_index.
  destruct (Z.ltb_spec (Z.of_nat i) 0); [lia|].
  rewrite Nat2Z.id.
  destruct (l !! i) as [x|] eqn:El.
  - apply lookup_lt_Some in El.
    destruct (Z.leb_spec 0 (Z.of_nat i)); [|lia].
    destruct (Z.ltb_spec (Z.of_nat i) (Z.of_nat (length l))); [reflexivity|lia].
  - by destruct (_ && _).
Qed.

Lemma py_index_zero {A} (l : list A) :
  py_index l 0 = match l with x :: _ => Ok x | [] => Raise IndexError end.
Proof. change 0 with (Z.of_nat 0). rewrite py_index_nat. by destruct l. Qed.

Lemma py_index_raise {A} (l : list A) (i : Z) (e : exn) :
  py_index l i = Raise e → e = IndexError.
Proof.
  unfold py_index. destruct (_ && _); [destruct (l !! _)|]; congruence.
Qed.

(** ** Grammar notebook *)

Module GrammarFacts.
Import Grammar.

(** The loop invariant: the batches flushed so far followed by the open
    batch spell out the sentences read so far, flushed batches hold one or
    two sentences, and the open batch holds at most one. *)
Lemma split_loop_inv (sentences : list string) (x : string) :
  list.last sentences = Some x →
  ∀ (todo : list string) (bs : list (list string)) (tmp : list string),
    Forall small bs → (length tmp ≤ 1)%nat →
    ∃ bs' tmp',
      split_loop sentences (bs, tmp) todo = Ok (bs', tmp')
      ∧ concat bs' ++ tmp' = concat bs ++ tmp ++ todo
      ∧ Forall small bs'
      ∧ (length tmp' ≤ 1)%nat
      ∧ (list.last todo = Some x → tmp' = []).
Proof.
  intros Hlast%py_index_last todo.
  induction todo as [|s todo IH]; intros bs tmp Hbs Htmp.
  - exists bs, tmp. rewrite app_nil_r. by repeat split.
  - assert (Forall small (bs ++ [tmp ++ [s]])) as Hflush.
    { apply Forall_app; split; [done|]. apply Forall_singleton.
      unfold small. rewrite length_app. simpl. lia. }
    assert (∀ bs1 tmp1,
      Forall small bs1 → (length tmp1 ≤ 1)%nat →
      concat bs1 ++ tmp1 = concat bs ++ tmp ++ [s] →
      (todo = [] → s = x → tmp1 = []) →
      split_step sentences (bs, tmp) s = Ok (bs1, tmp1) →
      ∃ bs' tmp',
        split_loop sentences (bs, tmp) (s :: todo) = Ok (bs', tmp')
        ∧ concat bs' ++ tmp' = concat bs ++ tmp ++ s :: todo
        ∧ Forall small bs' ∧ (length tmp' ≤ 1)%nat
        ∧ (list.last (s :: todo) = Some x → tmp' = [])) as Hgo.
    { intros bs1 tmp1 Hbs1 Htmp1 Hcat Hend Hstep.
      destruct (IH bs1 tmp1 Hbs1 Htmp1) as (bs' & tmp' & Hrun & Hcat' & Hs' & Ht' & Hl').
      exists bs', tmp'.
      change (split_loop sentences (bs, tmp) (s :: todo))
        with (st' ← split_step sentences (bs, tmp) s; split_loop sentences st' todo).
      rewrite Hstep. split; [exact Hrun|].
      split.
      { rewrite Hcat', (app_assoc (concat bs1)), Hcat.
        by rewrite <- !app_assoc. }
      split; [done|]. split; [done|].
      destruct todo as [|s' todo'].
      - simpl. intros [= ->]. simpl in Hrun.
        injection Hrun as <- <-. by apply Hend.
      - intros Hx. apply Hl'. by rewrite last_cons_cons in Hx. }
    assert (concat (bs ++ [tmp ++ [s]]) ++ [] = concat bs ++ tmp ++ [s]) as Hcat.
    { rewrite concat_app. simpl. by rewrite !app_nil_r. }
    unfold split_step in Hgo.
    destruct ((2 <=? length (tmp ++ [s]))%nat && (length (tmp ++ [s]) <=? 3)%nat) eqn:Hlen.
    { apply (Hgo (bs ++ [tmp ++ [s]]) []); [done|simpl; lia|done|done|done]. }
    rewrite Hlast in Hgo. simpl in Hgo.
    case_bool_decide as Hsx.
    { apply (Hgo (bs ++ [tmp ++ [s]]) []); [done|simpl; lia|done|done|done]. }
    apply (Hgo bs (tmp ++ [s])); [done| |done|done|done].
    apply andb_false_iff in Hlen as [Hlen%Nat.leb_gt|Hlen%Nat.leb_gt];
      rewrite length_app in *; simpl in *; lia.
Qed.

Lemma batch_sentences_spec (sentences : list string) :
  ∃ batches,
    batch_sentences sentences = Ok batches
    ∧ concat batches = sentences
    ∧ Forall small batches.
Proof.
  unfold batch_sentences.
  destruct (list.last sentences) as [x|] eqn:Hlast.
  - destruct (split_loop_inv sentences x Hlast sentences [] [])
      as (bs & tmp & Hrun & Hcat & Hsmall & _ & Hend); [done|simpl; lia|].
    exists bs. rewrite Hrun. simpl. split; [done|].
    rewrite (Hend Hlast), app_nil_r in Hcat. by split.
  - apply last_None in Hlast as ->. exists []. by repeat split.
Qed.

Section CorrectTextFacts.
Variable checker : string → string * float.
Variable corrector : string → string.

Lemma correct_step_output (acc : list string) (batch : list string) :
  correct_step checker corrector acc batch
  = acc ++ [batch_output checker corrector batch].
Proof.
  unfold correct_step, batch_output.
  destruct (checker (String.concat " " batch)) as [label score]. simpl.
  case_bool_decide; simpl; [|done].
  by destruct (score_lt score threshold).
Qed.

Lemma correct_loop_output (batches : list (list string)) (acc : list string) :
  foldl (correct_step checker corrector) acc batches
  = acc ++ (batch_output checker corrector <$> batches).
Proof.
  revert acc. induction batches as [|b batches IH]; intros acc; simpl.
  - by rewrite app_nil_r.
  - by rewrite IH, correct_step_output, <- app_assoc.
Qed.
End CorrectTextFacts.

End GrammarFacts.

(** C1, as amended.  [correct_text] returns the separator-join, in batch
    order, of one output string per batch of [split_text]: the raw text of
    the batch (its sentences joined by a space) when the checker answers
    [LABEL_1] with a score that is not below 0.9 for that raw text (a score
    of at least 0.9, or a NaN score), and the corrector's generated text
    for that raw text otherwise. *)
Theorem correct_text_joins_batch_outputs
    (checker : string → string * float) (corrector : string → string)
    (text separator : string) :
  (∃ batches,
     Grammar.split_text text = Ok batches
     ∧ Grammar.correct_text checker corrector text separator
       = Ok (String.concat separator
               (Grammar.batch_output checker corrector <$> batches)))
  ∧ ∀ batch : list string,
      let raw_text := String.concat " " batch in
      let keep := (checker raw_text).1 = "LABEL_1"
                  ∧ match (checker raw_text).2 with
                    | nan => True
                    | finite score => (Grammar.threshold <= score)%Q
                    end in
      (keep → Grammar.batch_output checker corrector batch = raw_text)
      ∧ (¬ keep → Grammar.batch_output checker corrector batch
                  = corrector raw_text).
Proof.
  split.
  - unfold Grammar.correct_text, Grammar.split_text.
    destruct (GrammarFacts.batch_sentences_spec (Grammar.re_split text))
      as (batches & Hrun & _).
    exists batches. rewrite Hrun. split; [done|]. simpl.
    by rewrite GrammarFacts.correct_loop_output.
  - intros batch raw_text keep. subst keep raw_text.
    unfold Grammar.batch_output, Grammar.score_lt, Grammar.float_lt.
    destruct (checker (String.concat " " batch)) as [label [|score]]; simpl.
    + split.
      * intros [-> _]. by rewrite bool_decide_eq_true_2.
      * intros Hn. case_bool_decide as Hl; simpl; [|done].
        exfalso. by apply Hn.
    + rewrite negb_involutive. split.
      * intros [-> Hs%Qle_bool_iff]. by rewrite Hs, bool_decide_eq_true_2.
      * intros Hn. case_bool_decide as Hl; simpl; [|done].
        destruct (Qle_bool _ _) eqn:Hs; [|done].
        exfalso. apply Hn. split; [done|]. by apply Qle_bool_iff.
Qed.

(** C1 as stated fails: on a NaN score [score < 0.9] is false, so the code
    keeps the raw text, while [score >= 0.9] is false as well, so the claim
    has the corrector's text returned. *)
Lemma correct_text_keeps_on_nan_score :
  Grammar.split_text "he go home" = Ok [["he go home"%string]]
  ∧ Grammar.correct_text (fun _ => ("LABEL_1"%string, nan))
      (fun _ => "He went home."%string) "he go home" " "
    = Ok "he go home"%string
  ∧ Grammar.score_ge nan Grammar.threshold = false
  ∧ String.concat " "
      (Grammar.claimed_output (fun _ => ("LABEL_1"%string, nan))
         (fun _ => "He went home."%string) <$> [["he go home"%string]])
    = "He went home."%string.
Proof. by repeat split. Qed.

(** C2.  Concatenating, in order, the batches returned by [split_text]
    gives back exactly the list of sentences obtained by splitting the text
    with the regular expression: the batching loop drops, duplicates and
    reorders nothing. *)
Theorem split_text_concat (text : string) :
  ∃ batches,
    Grammar.split_text text = Ok batches
    ∧ concat batches = Grammar.re_split text.
Proof.
  destruct (GrammarFacts.batch_sentences_spec (Grammar.re_split text))
    as (batches & Hrun & Hcat & _).
  by exists batches.
Qed.

(** C9.  Every batch returned by [split_text] holds exactly one or two
    sentences: none is empty and none holds three. *)
Theorem split_text_batch_sizes (text : string) :
  ∃ batches,
    Grammar.split_text text = Ok batches
    ∧ Forall (fun batch => length batch = 1%nat ∨ length batch = 2%nat) batches.
Proof.
  destruct (GrammarFacts.batch_sentences_spec (Grammar.re_split text))
    as (batches & Hrun & _ & Hsmall).
  by exists batches.
Qed.

(** ** Classification notebook *)

Module AccuracyFacts.
Import Accuracy.

Lemma comprehension_length {A B} (f : A → result B) (l : list A) (ys : list B) :
  comprehension f l = Ok ys → length ys = length l.
Proof.
  revert ys. induction l as [|x l IH]; intros ys; simpl.
  - by intros [= <-].
  - destruct (f x) as [y|e]; simpl; [|done].
    destruct (comprehension f l) as [ys'|e]; simpl; [|done].
    intros [= <-]. simpl. f_equal. by apply IH.
Qed.

(** The comprehension [[float(t in predictions[i]) for i, t in
    enumerate(target)]], started at row [k]: it returns when there is a row
    for every label, and then pairs rows and labels in order. *)
Lemma match_rows (predictions : list (list Z)) (target : list Z) (k : nat) :
  comprehension
    (fun '(i, t) => p ← py_index predictions i;
                    Ok (float_of_bool (bool_decide (t ∈ p))))
    (imap (fun i x => (Z.of_nat (k + i), x)) target)
  = if decide (length target ≤ length (drop k predictions))%nat
    then Ok (zip_with (fun p t => float_of_bool (bool_decide (t ∈ p)))
                      (drop k predictions) target)
    else Raise IndexError.
Proof.
  revert k. induction target as [|t target IH]; intros k.
  - simpl. by destruct (drop k predictions).
  - cbn [imap comprehension]. rewrite Nat.add_0_r, py_index_nat.
    destruct (predictions !! k) as [p|] eqn:Hk.
    + rewrite (drop_S _ _ _ Hk).
      rewrite (imap_ext _ (fun i x => (Z.of_nat (S k + i), x))); last first.
      { intros i x _. simpl. do 2 f_equal. lia. }
      rewrite IH. simpl.
      destruct (decide (length target ≤ length (drop (S k) predictions))%nat);
        [rewrite decide_True by lia | rewrite decide_False by lia]; done.
    + apply lookup_ge_None in Hk. rewrite drop_ge by done.
      rewrite decide_False by (simpl; lia). done.
Qed.

Section UpdateFacts.
Variable np_argsort : list Q → list Z.

(** What [update_match] does on each shape of [output]. *)
Lemma update_match_cases (self : t) (output : list ndarray2) (target : annotations) :
  update_match np_argsort self output target =
  match output with
  | [] => Raise IndexError
  | [a] =>
      if decide (length (labels target) ≤ length a)%nat
      then Ok (indicators np_argsort (_top_k self) (output, target))
      else Raise IndexError
  | _ :: _ :: _ => Raise (Exception
      "The accuracy metric cannot be calculated for a model with multiple outputs")
  end.
Proof.
  unfold update_match. destruct output as [|a [|b output]].
  - done.
  - change (1 <? Z.of_nat (length [a])) with false. cbv iota.
    rewrite py_index_zero. unfold enumerate.
    pose proof (match_rows (top_predictions np_argsort (_top_k self) a)
                           (labels target) 0) as Hrows.
    simpl in Hrows. simpl. rewrite Hrows.
    rewrite !drop_0. unfold indicators, top_predictions.
    rewrite length_fmap. done.
  - destruct (Z.ltb_spec 1 (Z.of_nat (length (a :: b :: output)))) as [|Hlen];
      [done|]. simpl in Hlen. lia.
Qed.

Lemma update_match_indicators (self : t) output target (m : list Q) :
  update_match np_argsort self output target = Ok m →
  m = indicators np_argsort (_top_k self) (output, target)
  ∧ length m = length (labels target).
Proof.
  rewrite update_match_cases. destruct output as [|a [|b output]]; [done| |done].
  case_decide as Hlen; [|done]. intros [= <-]. split; [done|].
  unfold indicators, top_predictions. simpl.
  rewrite length_zip_with, length_fmap. lia.
Qed.

Lemma update_Ok (self : t) output target :
  ¬ raises (update np_argsort self output target).1 →
  ∃ m, update_match np_argsort self output target = Ok m
       ∧ update np_argsort self output target
         = (Ok (), {| _top_k := _top_k self; _name := _name self;
                      _matches := _matches self ++ [m] |}).
Proof.
  unfold update.
  destruct (update_match np_argsort self output target) as [m|e]; simpl.
  - intros _. by exists m.
  - intros H. by destruct H.
Qed.

Lemma updates_app (self : t) (calls1 calls2 : list (list ndarray2 * annotations)) :
  updates np_argsort self (calls1 ++ calls2)
  = self' ← updates np_argsort self calls1; updates np_argsort self' calls2.
Proof.
  revert self. induction calls1 as [|[output target] calls1 IH]; intros self.
  - done.
  - simpl. destruct (update np_argsort self output target) as [[[]|e] self'];
      [apply IH|done].
Qed.

(** A run of returning updates appends one match list per call, in call
    order, and leaves the name and [top_k] alone. *)
Lemma updates_matches (calls : list (list ndarray2 * annotations)) :
  ∀ self self' : t,
    updates np_argsort self calls = Some self' →
    _matches self' = _matches self ++ (indicators np_argsort (_top_k self) <$> calls)
    ∧ _name self' = _name self
    ∧ _top_k self' = _top_k self
    ∧ Forall (fun call => length (indicators np_argsort (_top_k self) call)
                          = length (labels call.2)) calls.
Proof.
  induction calls as [|[output target] calls IH]; intros self self'.
  - simpl. intros [= <-]. rewrite app_nil_r. by repeat split.
  - simpl. unfold update.
    destruct (update_match np_argsort self output target) as [m|e] eqn:Hm; [|done].
    apply update_match_indicators in Hm as [-> Hlen].
    intros (Hms & Hname & Htop & Hlens)%IH. simpl in *.
    rewrite Hms, <- app_assoc. repeat split; try done.
    constructor; done.
Qed.
End UpdateFacts.

Lemma np_ravel_uniform (m : list (list Q)) (w : nat) :
  Forall (fun r => length r = w) m → np_ravel m = Ok (concat m).
Proof.
  destruct m as [|r rs]; [done|].
  intros Hall. inversion Hall as [|? ? Hr Hrs]; subst. unfold np_ravel.
  replace (forallb _ rs) with true; [done|].
  symmetry. apply forallb_forall. intros r' Hin.
  rewrite List.Forall_forall in Hrs. apply Nat.eqb_eq. exact (Hrs r' Hin).
Qed.

End AccuracyFacts.

(** C3, as amended.  [update] raises exactly when [output] does not hold
    one single array or that array has fewer rows than there are labels:
    its own exception with more than one output, [IndexError] with an empty
    [output], and [IndexError] with more labels than rows.  Whenever it
    raises, the accumulated matches (the whole object) are unchanged, and
    when it returns, exactly one match list has been appended. *)
Theorem update_raises_atomic
    (np_argsort : list Q → list Z) (self : Accuracy.t)
    (output : list ndarray2) (target : Accuracy.annotations) :
  let r := Accuracy.update np_argsort self output target in
  (raises r.1 ↔
     length output ≠ 1%nat
     ∨ ∃ a, output = [a] ∧ (length a < length (Accuracy.labels target))%nat)
  ∧ ((1 < length output)%nat →
     r.1 = Raise (Exception
       "The accuracy metric cannot be calculated for a model with multiple outputs"))
  ∧ (output = [] → r.1 = Raise IndexError)
  ∧ (∀ a, output = [a] →
          (length a < length (Accuracy.labels target))%nat →
          r.1 = Raise IndexError)
  ∧ (raises r.1 → r.2 = self)
  ∧ (¬ raises r.1 →
       ∃ m, Accuracy._matches r.2 = Accuracy._matches self ++ [m]).
Proof.
  simpl. unfold Accuracy.update.
  rewrite AccuracyFacts.update_match_cases.
  destruct output as [|a [|b output]]; [| case_decide as Hlen |]; simpl.
  - split_and!; [|lia|done|done|done|intros []; done].
    split; [intros _|done]. by left.
  - split_and!; [|lia|done| |done|by eexists].
    + split; [done|]. intros [?|(a' & [= <-] & ?)]; [done|lia].
    + intros a' [= <-] ?. lia.
  - split_and!; [|lia|done|done|done|intros []; done].
    split; [intros _|done]. right. exists a. split; [done|lia].
  - split_and!; [|done|done|done|done|intros []; done].
    split; [intros _|done]. by left.
Qed.

(** C3 as stated fails: with an empty [output] list the guard
    [len(output) > 1] is false and yet [output[0]] raises. *)
Lemma update_raises_on_empty_output :
  (Accuracy.update Accuracy.stable_argsort (Accuracy.init 1) []
     (Accuracy.AsList [])).1 = Raise IndexError
  ∧ ¬ (1 < length ([] : list ndarray2))%nat.
Proof. split; [reflexivity | simpl; lia]. Qed.

(** After a run of returning [update] calls on a metric whose match list
    was empty (fresh or just reset), all of which carried the same number
    of labels, [avg_value] returns under the metric's name the arithmetic
    mean of all per-sample match indicators of the run ([nan] when there
    is none); sample [i] of a call scores 1.0 when its label is among the
    last [top_k] entries of the argsort of row [i] (for [top_k >= 1], the
    [top_k] last-sorted classes) and 0.0 otherwise; and [reset] empties
    the accumulated matches. *)
Theorem avg_value_is_mean
    (np_argsort : list Q → list Z) (self0 self1 : Accuracy.t)
    (calls : list (list ndarray2 * Accuracy.annotations)) (w : nat) :
  Accuracy._matches self0 = [] →
  Accuracy.updates np_argsort self0 calls = Some self1 →
  Forall (fun call => length (Accuracy.labels call.2) = w) calls →
  let top_k := Accuracy._top_k self0 in
  let all := concat (Accuracy.indicators np_argsort top_k <$> calls) in
  Accuracy.avg_value self1
  = Ok [(Accuracy._name self0,
         match all with
         | [] => nan
         | _ => finite (Qdiv (Qsum all) (inject_Z (Z.of_nat (length all))))
         end)]
  ∧ (∀ call (i : nat) (t : Z) (row : list Q),
       Accuracy.labels call.2 !! i = Some t →
       default [] (head call.1) !! i = Some row →
       Accuracy.indicators np_argsort top_k call !! i
       = Some (if bool_decide (t ∈ py_slice_from (- top_k) (np_argsort row))
               then 1 # 1 else 0 # 1))
  ∧ (0 < top_k →
     ∀ row, py_slice_from (- top_k) (np_argsort row)
            = drop (length (np_argsort row) - Z.to_nat top_k) (np_argsort row))
  ∧ Accuracy._matches (Accuracy.reset self1) = [].
Proof.
  intros Hfresh Hrun Hw top_k all. split_and!; [| | |done].
  - apply AccuracyFacts.updates_matches in Hrun as (Hms & Hname & _ & Hlens).
    rewrite Hfresh in Hms. simpl in Hms.
    unfold Accuracy.avg_value. rewrite Hms, Hname.
    rewrite (AccuracyFacts.np_ravel_uniform _ w); [done|].
    apply Forall_fmap. clear Hms all.
    induction Hlens as [|call calls' Hlen _ IH]; [constructor|].
    inversion Hw; subst. constructor; [simpl; congruence | by apply IH].
  - intros call i t row Ht Hrow.
    unfold Accuracy.indicators, Accuracy.top_predictions.
    rewrite lookup_zip_with, list_lookup_fmap, Hrow, Ht. done.
  - intros Hk row. unfold py_slice_from.
    destruct (Z.ltb_spec (- top_k) 0); [|lia]. f_equal. lia.
Qed.

(** C4.  The code falls short of the claim when updates carry different
    numbers of labels: after two returning updates with one and with two
    labels the match lists have unequal lengths, and [avg_value] raises
    instead of returning the mean of the three indicators. *)
Lemma avg_value_raises_on_uneven_updates :
  ∃ self1,
    Accuracy.updates Accuracy.stable_argsort (Accuracy.init 1)
      [ ([[[1 # 10; 9 # 10]]], Accuracy.AsList [1]);
        ([[[1 # 10; 9 # 10]; [8 # 10; 2 # 10]]], Accuracy.AsList [1; 0]) ]
    = Some self1
    ∧ Accuracy._matches self1 = [[1 # 1]; [1 # 1; 1 # 1]]
    ∧ raises (Accuracy.avg_value self1).
Proof. eexists. split; [reflexivity|]. split; [reflexivity|exact I]. Qed.

(** C7.  After at least one returning [update] (whatever the metric held
    before), [value] returns under the metric's name exactly the match list
    that the most recent update computed and appended. *)
Theorem value_is_last_match
    (np_argsort : list Q → list Z) (self0 self1 : Accuracy.t)
    (calls : list (list ndarray2 * Accuracy.annotations))
    (output : list ndarray2) (target : Accuracy.annotations) :
  Accuracy.updates np_argsort self0 (calls ++ [(output, target)]) = Some self1 →
  ∃ self' m,
    Accuracy.updates np_argsort self0 calls = Some self'
    ∧ Accuracy.update_match np_argsort self' output target = Ok m
    ∧ list.last (Accuracy._matches self1) = Some m
    ∧ Accuracy.value self1 = Ok [(Accuracy._name self0, m)].
Proof.
  rewrite AccuracyFacts.updates_app.
  destruct (Accuracy.updates np_argsort self0 calls) as [self'|] eqn:Hrun;
    [|done].
  apply AccuracyFacts.updates_matches in Hrun as (_ & Hname & _ & _).
  simpl. unfold Accuracy.update.
  destruct (Accuracy.update_match np_argsort self' output target) as [m|e]
    eqn:Hm; [|done].
  intros [= <-]. exists self', m. simpl.
  assert (list.last (Accuracy._matches self' ++ [m]) = Some m) as Hlast
    by apply last_snoc.
  split_and!; try done.
  unfold Accuracy.value. cbn [Accuracy._matches Accuracy._name].
  rewrite (py_index_last _ _ Hlast). simpl. by rewrite Hname.
Qed.

(** C5.  For an index that is valid in the wrapped dataset,
    [__getitem__] returns [((index, label), image.numpy())] for the
    [(image, label)] found at that index and nothing else is done to the
    sample; [__len__] is the length of the dataset. *)
Theorem cifar_getitem_indexes
    {Image Array : Type} (numpy : Image → Array) (config : string)
    (dataset : list (Image * Z)) (index : Z) (image : Image) (label : Z) :
  py_index dataset index = Ok (image, label) →
  CifarDataLoader.getitem numpy (CifarDataLoader.init config dataset) index
  = Ok ((index, label), numpy image)
  ∧ CifarDataLoader.len (CifarDataLoader.init config dataset)
    = Z.of_nat (length dataset).
Proof.
  intros Hget. split; [|done].
  unfold CifarDataLoader.getitem. simpl. by rewrite Hget.
Qed.

(** C8.  Whatever is passed as [sample_limit], the constructor stores
    [None]; hence [__len__] is the length of the dataset and [__getitem__]
    never raises [StopIteration]: it returns the sample's inputs and label
    at every index valid in the dataset. *)
Theorem librispeech_limit_ignored
    (dataset : list Speech.sample) (sample_limit : option Z) :
  let self := Speech.LibriSpeechDataLoader.init dataset sample_limit in
  Speech.LibriSpeechDataLoader.sample_limit self = None
  ∧ Speech.LibriSpeechDataLoader.len self = Z.of_nat (length dataset)
  ∧ ∀ index : Z,
      Speech.LibriSpeechDataLoader.getitem self index ≠ Raise StopIteration
      ∧ ∀ sample,
          py_index dataset index = Ok sample →
          Speech.LibriSpeechDataLoader.getitem self index
          = Ok ([("inputs", Speech.input_values sample)], [Speech.text sample]).
Proof.
  simpl. split; [done|]. split; [done|]. intros index. split.
  - unfold Speech.LibriSpeechDataLoader.getitem. simpl.
    destruct (py_index dataset index) as [sample|e] eqn:Hget; [done|].
    apply py_index_raise in Hget as ->. done.
  - intros sample Hget.
    unfold Speech.LibriSpeechDataLoader.getitem. simpl. by rewrite Hget.
Qed.

(** ** Speech notebook: the two inference helpers *)

Module SpeechFacts.
Import Speech.

Lemma float_lt_spec (x y : Q) : Grammar.float_lt x y = true ↔ (x < y)%Q.
Proof.
  unfold Grammar.float_lt. rewrite negb_true_iff, <- not_true_iff_false.
  rewrite Qle_bool_iff. split; [apply Qnot_le_lt | apply Qlt_not_le].
Qed.

Lemma float_lt_false (x y : Q) : Grammar.float_lt x y = false ↔ (y <= x)%Q.
Proof.
  rewrite <- not_true_iff_false, float_lt_spec.
  split; [apply Qnot_lt_le | apply Qle_not_lt].
Qed.

(** Between a candidate and one found further right, the reduction keeps
    the left one unless the right one is strictly greater. *)
Lemma combine_ordered (a b : Q * Z) :
  a.2 < b.2 →
  torch_argmax_combine a b = if Grammar.float_lt a.1 b.1 then b else a.
Proof.
  intros Hidx. unfold torch_argmax_combine.
  destruct (Grammar.float_lt b.1 a.1) eqn:Hba;
    destruct (Grammar.float_lt a.1 b.1) eqn:Hab; try done.
  - apply float_lt_spec in Hba, Hab.
    exfalso. apply (Qlt_irrefl a.1). by apply Qlt_trans with b.1.
  - destruct (Z.ltb_spec a.2 b.2); [done|lia].
Qed.

Lemma reduce_index (row : list Q) :
  ∀ (i : Z) (r : Q * Z), torch_argmax_reduce row i = Some r → i ≤ r.2.
Proof.
  induction row as [|x row IH]; intros i r; simpl; [done|].
  destruct (torch_argmax_reduce row (i + 1)) as [r'|] eqn:Hr'.
  - apply IH in Hr'. intros [= <-].
    rewrite combine_ordered by (simpl; lia).
    destruct (Grammar.float_lt _ _); simpl; lia.
  - intros [= <-]. simpl. lia.
Qed.

(** The scan of [np.argmax], started from a running maximum found to the
    left, ends where the reduction of [torch.argmax] puts that maximum
    against the rest of the row. *)
Lemma scan_reduce (row : list Q) :
  ∀ (i : Z) (mp : Q) (max_ind : Z),
    max_ind < i →
    np_argmax_scan row i mp max_ind =
    match torch_argmax_reduce row i with
    | None => max_ind
    | Some r => (torch_argmax_combine (mp, max_ind) r).2
    end.
Proof.
  induction row as [|x row IH]; intros i mp max_ind Hidx; simpl; [done|].
  rewrite !IH by lia.
  destruct (torch_argmax_reduce row (i + 1)) as [[v j]|] eqn:Hr.
  - apply reduce_index in Hr. simpl in Hr.
    rewrite (combine_ordered (x, i) (v, j)) by (simpl; lia). simpl.
    destruct (Grammar.float_lt mp x) eqn:Hmx;
      destruct (Grammar.float_lt x v) eqn:Hxv;
      rewrite !combine_ordered by (simpl; lia); simpl;
      rewrite ?Hmx, ?Hxv; try done.
    + apply float_lt_spec in Hmx, Hxv.
      assert (Grammar.float_lt mp v = true) as ->; [|done].
      apply float_lt_spec. by apply Qlt_trans with x.
    + apply float_lt_false in Hmx, Hxv.
      assert (Grammar.float_lt mp v = false) as ->; [|done].
      apply float_lt_false. by apply Qle_trans with x.
  - rewrite combine_ordered by (simpl; lia). simpl.
    by destruct (Grammar.float_lt mp x).
Qed.

Lemma argmax_row_agree (row : list Q) :
  row ≠ [] →
  ∃ z, torch_argmax_row row = Ok z ∧ np_argmax_row row = Ok z.
Proof.
  destruct row as [|x row]; [done|]. intros _.
  unfold torch_argmax_row, np_argmax_row. simpl.
  rewrite scan_reduce by lia.
  change (0 + 1) with 1.
  destruct (torch_argmax_reduce row 1) as [r|]; by eexists.
Qed.

Lemma argmax_row_Ok (row : list Q) (z : Z) :
  torch_argmax_row row = Ok z ↔ np_argmax_row row = Ok z.
Proof.
  destruct row as [|x row]; [done|].
  destruct (argmax_row_agree (x :: row)) as (z' & -> & ->); done.
Qed.

(** Two results that return the same values are both returns of one
    value or both raises. *)
Lemma Ok_iff_cases {A} (r1 r2 : result A) :
  (∀ y, r1 = Ok y ↔ r2 = Ok y) →
  match r1, r2 with
  | Ok a, Ok b => a = b
  | Raise _, Raise _ => True
  | _, _ => False
  end.
Proof.
  intros H. destruct r1 as [a|e1], r2 as [b|e2]; try done.
  - destruct (H a) as [H1 _]. specialize (H1 eq_refl). congruence.
  - destruct (H a) as [H1 _]. by specialize (H1 eq_refl).
  - destruct (H b) as [_ H2]. by specialize (H2 eq_refl).
Qed.

Lemma comprehension_Ok_ext {A B} (f g : A → result B) :
  (∀ x y, f x = Ok y ↔ g x = Ok y) →
  ∀ l ys, comprehension f l = Ok ys ↔ comprehension g l = Ok ys.
Proof.
  intros Hfg l. induction l as [|x l IH]; intros ys; simpl; [done|].
  pose proof (Ok_iff_cases _ _ (Hfg x)) as Hx.
  pose proof (Ok_iff_cases _ _ IH) as Hl.
  destruct (f x), (g x); try done; subst; simpl.
  destruct (comprehension f l), (comprehension g l); try done; subst; done.
Qed.

Lemma comprehension_total {A B} (f : A → result B) (P : A → Prop) (l : list A) :
  (∀ x, P x → ∃ y, f x = Ok y) → Forall P l → ∃ ys, comprehension f l = Ok ys.
Proof.
  intros Hf. induction 1 as [|x l Hx _ [ys IH]]; simpl; [by eexists|].
  destruct (Hf x Hx) as [y ->]. rewrite IH. by eexists.
Qed.

Lemma argmax_Ok (l : logits) (ids : list (list Z)) :
  torch_argmax l = Ok ids ↔ np_argmax l = Ok ids.
Proof.
  apply comprehension_Ok_ext. intros rows zs.
  apply comprehension_Ok_ext. apply argmax_row_Ok.
Qed.

End SpeechFacts.

(** C6.  When the PyTorch model and the compiled OpenVINO model give equal
    logits for the sample's [input_values], [torch_infer] returns a
    transcription exactly when [ov_infer] returns the same one; and both do
    return one whenever no row of the last axis is empty. *)
Theorem infer_same_transcription
    (batch_decode : list (list Z) → list string)
    (pt_model ov_model : list (list Q) → list (list (list Q)))
    (sample : Speech.sample) :
  pt_model (Speech.input_values sample) = ov_model (Speech.input_values sample) →
  (∀ transcription,
     Speech.torch_infer batch_decode pt_model sample = Ok transcription
     ↔ Speech.ov_infer batch_decode ov_model sample = Ok transcription)
  ∧ (Forall (Forall (fun row => row ≠ [])) (pt_model (Speech.input_values sample)) →
     ∃ transcription,
       Speech.torch_infer batch_decode pt_model sample = Ok transcription
       ∧ Speech.ov_infer batch_decode ov_model sample = Ok transcription).
Proof.
  intros Heq. unfold Speech.torch_infer, Speech.ov_infer. rewrite <- Heq.
  set (l := pt_model (Speech.input_values sample)).
  assert (∀ ids, Speech.torch_argmax l = Ok ids ↔ Speech.np_argmax l = Ok ids)
    as Hids by apply SpeechFacts.argmax_Ok.
  split.
  - intros transcription.
    pose proof (SpeechFacts.Ok_iff_cases _ _ Hids) as Hcases.
    destruct (Speech.torch_argmax l), (Speech.np_argmax l); try done.
    by subst.
  - intros Hrows.
    destruct (SpeechFacts.comprehension_total
                (comprehension Speech.torch_argmax_row)
                (Forall (fun row => row ≠ [])) l) as [ids Ht]; [|done|].
    { intros rows Hne.
      apply (SpeechFacts.comprehension_total _ (fun row => row ≠ [])); [|done].
      intros row Hrow.
      destruct (SpeechFacts.argmax_row_agree row Hrow) as (z & Hz & _).
      by exists z. }
    fold (Speech.torch_argmax l) in Ht.
    exists (batch_decode ids). rewrite Ht.
    apply Hids in Ht. by rewrite Ht.
Qed.

(** ** Segmentation notebook *)

Module DataModuleFacts.
Import DataModule.

(** No directory name of a training case is one of a validation case. *)
Lemma train_val_cases_disjoint : Forall (fun c => c ∉ val_cases) train_cases.
Proof. compute_done. Qed.

Lemma train_frame_case (frames : list frame) (f : frame) :
  f ∈ filter (fun p => parents1_name p ∈ train_cases) frames →
  parents1_name f ∈ train_cases.
Proof. by intros [? _]%list_elem_of_filter. Qed.

Lemma val_frame_case (frames : list frame) (g : frame) :
  g ∈ filter (fun p => parents1_name p ∈ val_cases) frames →
  parents1_name g ∈ val_cases.
Proof. by intros [? _]%list_elem_of_filter. Qed.

End DataModuleFacts.

(** C10.  In [setup] the 21 validation indices, the 5 test indices and the
    computed training indices are pairwise disjoint and together make up
    exactly 0, ..., 209; so no frame kept for training lies in the case
    directory of a frame kept for validation. *)
Theorem setup_case_split :
  let val : gset Z := list_to_set DataModule.val_indices in
  let test : gset Z := list_to_set DataModule.test_indices in
  let train : gset Z := DataModule.train_indices in
  (length DataModule.val_indices = 21%nat ∧ NoDup DataModule.val_indices)
  ∧ (length DataModule.test_indices = 5%nat ∧ NoDup DataModule.test_indices)
  ∧ val ## test ∧ train ## val ∧ train ## test
  ∧ train ∪ val ∪ test = list_to_set (seqZ 0 210)
  ∧ ∀ (segs images : list DataModule.frame) (f g : DataModule.frame),
      let d := DataModule.setup segs images in
      f ∈ DataModule.train_segs d ∨ f ∈ DataModule.train_images d →
      g ∈ DataModule.val_segs d ∨ g ∈ DataModule.val_images d →
      DataModule.parents1_name f ≠ DataModule.parents1_name g.
Proof.
  intros val test train. subst val test train.
  split_and!; [compute_done..|].
  intros segs images f g d Hf Hg Hsame. subst d. unfold DataModule.setup in *.
  cbn [DataModule.train_segs DataModule.train_images
       DataModule.val_segs DataModule.val_images] in *.
  assert (DataModule.parents1_name f ∈ DataModule.train_cases) as Hft.
  { destruct Hf as [Hf|Hf]; by apply DataModuleFacts.train_frame_case in Hf. }
  assert (DataModule.parents1_name g ∈ DataModule.val_cases) as Hgv.
  { destruct Hg as [Hg|Hg]; by apply DataModuleFacts.val_frame_case in Hg. }
  pose proof DataModuleFacts.train_val_cases_disjoint as Hdisj.
  rewrite list.Forall_forall in Hdisj.
  apply (Hdisj _ Hft). by rewrite Hsame.
Qed.

(** ** The theorems at concrete inputs *)

(** [split_text] on a short text: the second batch is cut after one
    sentence because that sentence equals the last one of the text. *)
Example split_text_early_flush :
  Grammar.split_text "It was I. He left. Yes? Nope. Yes?"
  = Ok [["It was I."; "He left."]; ["Yes?"]; ["Nope."; "Yes?"]].
Proof. reflexivity. Qed.

(** The look-behind reads the text before the scan position, also across
    an earlier match, and needs three characters. *)
Example re_split_lookbehind :
  Grammar.re_split "ab.  X. Y" = ["ab."; "X."; "Y"]
  ∧ Grammar.re_split "U. A b. C" = ["U. A b."; "C"]
  ∧ Grammar.re_split "" = [""].
Proof. by repeat split. Qed.

(** C1 at a batch that a checker scoring 0.95 keeps. *)
Lemma correct_text_joins_batch_outputs_witness :
  Grammar.batch_output
    (fun _ => ("LABEL_1"%string, finite (95 # 100)))
    (fun _ => "corrected"%string)
    ["It is fine."%string; "So is this."%string]
  = "It is fine. So is this."%string.
Proof.
  apply (proj2 (correct_text_joins_batch_outputs
                  (fun _ => ("LABEL_1"%string, finite (95 # 100)))
                  (fun _ => "corrected"%string) "" " ")
               ["It is fine."%string; "So is this."%string]).
  split; [reflexivity|]. unfold Qle. simpl. lia.
Defined.

(** Two updates of one sample each, one hit and one miss, average to
    one half. *)
Lemma avg_value_is_mean_witness :
  Accuracy.avg_value
    {| Accuracy._top_k := 1; Accuracy._name := "accuracy@top1";
       Accuracy._matches := [[1 # 1]; [0 # 1]] |}
  = Ok [("accuracy@top1"%string, finite (1 # 2))].
Proof.
  apply (avg_value_is_mean Accuracy.stable_argsort (Accuracy.init 1) _
           [ ([[[1 # 10; 9 # 10]]], Accuracy.AsList [1]);
             ([[[1 # 10; 9 # 10]]], Accuracy.AsList [0]) ] 1%nat).
  - reflexivity.
  - reflexivity.
  - repeat constructor.
Defined.

(** C7 at the same two updates: [value] shows the miss of the second. *)
Lemma value_is_last_match_witness :
  ∃ self' m,
    Accuracy.updates Accuracy.stable_argsort (Accuracy.init 1)
      [ ([[[1 # 10; 9 # 10]]], Accuracy.AsList [1]) ] = Some self'
    ∧ Accuracy.update_match Accuracy.stable_argsort self'
        [[[1 # 10; 9 # 10]]] (Accuracy.AsList [0]) = Ok m
    ∧ list.last [[1 # 1]; [0 # 1]] = Some m
    ∧ Accuracy.value
        {| Accuracy._top_k := 1; Accuracy._name := "accuracy@top1";
           Accuracy._matches := [[1 # 1]; [0 # 1]] |}
      = Ok [("accuracy@top1"%string, m)].
Proof.
  apply (value_is_last_match Accuracy.stable_argsort (Accuracy.init 1)
           {| Accuracy._top_k := 1; Accuracy._name := "accuracy@top1";
              Accuracy._matches := [[1 # 1]; [0 # 1]] |}
           [ ([[[1 # 10; 9 # 10]]], Accuracy.AsList [1]) ]
           [[[1 # 10; 9 # 10]]] (Accuracy.AsList [0])).
  reflexivity.
Defined.

(** C5 at the last sample of a dataset of two, reached by index -1. *)
Lemma cifar_getitem_indexes_witness :
  CifarDataLoader.getitem (fun image : nat => [image; image])
    (CifarDataLoader.init "config" [(10%nat, 3); (20%nat, 5)]) (-1)
  = Ok ((-1, 5), [20%nat; 20%nat])
  ∧ CifarDataLoader.len
      (CifarDataLoader.init "config" [(10%nat, 3); (20%nat, 5)]) = 2.
Proof.
  apply (cifar_getitem_indexes (fun image : nat => [image; image]) "config"
           [(10%nat, 3); (20%nat, 5)] (-1) 20%nat 5).
  reflexivity.
Defined.

(** C6 at two models that both hand back their input as a batch of one,
    on a sample whose second frame has its maximum twice. *)
Lemma infer_same_transcription_witness :
  ∃ transcription,
    Speech.torch_infer (fmap (fun ids => String.concat "," (pretty <$> ids)))
      (fun x => [x])
      {| Speech.input_values := [[1 # 2; 3 # 4]; [5 # 1; 10 # 2; 1 # 1]];
         Speech.text := "hello" |} = Ok transcription
    ∧ Speech.ov_infer (fmap (fun ids => String.concat "," (pretty <$> ids)))
        (fun x => [x])
        {| Speech.input_values := [[1 # 2; 3 # 4]; [5 # 1; 10 # 2; 1 # 1]];
           Speech.text := "hello" |} = Ok transcription.
Proof.
  apply (proj2 (infer_same_transcription
                  (fmap (fun ids => String.concat "," (pretty <$> ids)))
                  (fun x => [x]) (fun x => [x])
                  {| Speech.input_values := [[1 # 2; 3 # 4]; [5 # 1; 10 # 2; 1 # 1]];
                     Speech.text := "hello" |} eq_refl)).
  repeat constructor; discriminate.
Defined.

(** * Further properties of the helpers *)

(** ** Grammar notebook: the splitter *)

Module GrammarShapeFacts.
Import Grammar GrammarShape.

Lemma string_app_cons (x : ascii) (a b : string) :
  String x a +:+ b = String x (a +:+ b).
Proof. reflexivity. Qed.

Lemma string_app_assoc (a b c : string) : (a +:+ b) +:+ c = a +:+ (b +:+ c).
Proof.
  induction a as [|x a IH]; [done|]. by rewrite !string_app_cons, IH.
Qed.

Lemma string_of_list_ascii_app (a b : list ascii) :
  string_of_list_ascii (a ++ b)
  = string_of_list_ascii a +:+ string_of_list_ascii b.
Proof.
  induction a as [|x a IH]; [done|].
  change (string_of_list_ascii ((x :: a) ++ b))
    with (String x (string_of_list_ascii (a ++ b))).
  by rewrite IH.
Qed.

(** The scan always yields a first piece, which extends [cur]. *)
Lemma scan_first (after : list ascii) :
  ∀ before cur skip, ∃ suffix ps,
    re_split_scan before cur skip after = (rev cur ++ suffix) :: ps.
Proof.
  induction after as [|c rest IH]; intros before cur skip; simpl.
  - exists [], []. by rewrite app_nil_r.
  - destruct skip as [|k]; [|apply IH].
    destruct (match_here before (c :: rest)) as [[|k]|].
    + destruct (IH (c :: before) (c :: cur) O) as (suffix & ps & ->).
      exists (c :: suffix), ps. simpl. by rewrite <- app_assoc.
    + exists [], (re_split_scan (c :: before) [] k rest). by rewrite app_nil_r.
    + destruct (IH (c :: before) (c :: cur) O) as (suffix & ps & ->).
      exists (c :: suffix), ps. simpl. by rewrite <- app_assoc.
Qed.

Lemma spaces_spec (l : list ascii) (n : nat) (tl : list ascii) :
  spaces l = (n, tl) →
  drop n l = tl
  ∧ Forall (fun c => is_space c = true) (take n l)
  ∧ match tl with c :: _ => is_space c = false | [] => True end.
Proof.
  revert n tl. induction l as [|c l IH]; intros n tl; simpl.
  - intros [= <- <-]. by repeat split.
  - destruct (is_space c) eqn:Hc.
    + destruct (spaces l) as [n' tl'] eqn:Hl. intros [= <- <-].
      destruct (IH n' tl' eq_refl) as (Hd & Hs & Ht).
      simpl. split_and!; [done| by constructor | done].
    + intros [= <- <-]. simpl. by repeat split.
Qed.

(** What a match at the current position says about the text around it. *)
Lemma match_here_spec (before after : list ascii) (n : nat) :
  match_here before after = Some n →
  lookbehind before = true
  ∧ ∃ k u tl, n = S k ∧ drop n after = u :: tl ∧ is_upper u = true
              ∧ Forall (fun c => is_space c = true) (take n after).
Proof.
  unfold match_here. destruct (lookbehind before); [|done].
  destruct (spaces after) as [[|k] [|u tl]] eqn:Hs; try done.
  destruct (is_upper u) eqn:Hu; [|done]. intros [= <-].
  apply spaces_spec in Hs as (Hd & Hsp & _).
  split; [done|]. by exists k, u, tl.
Qed.

(** Without a match anywhere, the scan returns the text in one piece. *)
Lemma scan_unmatched (after : list ascii) :
  ∀ before cur,
    (∀ pre post, after = pre ++ post → match_here (rev pre ++ before) post = None) →
    re_split_scan before cur O after = [rev cur ++ after].
Proof.
  induction after as [|c rest IH]; intros before cur Hno; simpl.
  - by rewrite app_nil_r.
  - pose proof (Hno [] (c :: rest) eq_refl) as Hhere. simpl in Hhere.
    rewrite Hhere.
    rewrite IH; [simpl; by rewrite <- app_assoc|].
    intros pre post ->. specialize (Hno (c :: pre) post eq_refl).
    simpl in Hno. by rewrite <- app_assoc in Hno.
Qed.

Lemma lookbehind_stop (before : list ascii) :
  lookbehind before = true → ∃ c tl, before = c :: tl ∧ is_stop c = true.
Proof.
  destruct before as [|c1 [|c2 [|c3 tl]]]; simpl; try done.
  intros [[H1 _]%andb_true_iff _]%andb_true_iff. by eexists _, _.
Qed.

Lemma match_here_stop (before after : list ascii) :
  Forall (fun c => is_stop c = false) before → match_here before after = None.
Proof.
  intros Hb. destruct (match_here before after) as [n|] eqn:Hm; [|done].
  apply match_here_spec in Hm as [(c & tl & -> & Hc)%lookbehind_stop _].
  inversion Hb; congruence.
Qed.

Lemma match_here_space (before after : list ascii) :
  Forall (fun c => is_space c = false) after → match_here before after = None.
Proof.
  intros Ha. destruct (match_here before after) as [n|] eqn:Hm; [|done].
  apply match_here_spec in Hm as (_ & k & u & tl & -> & Hd & _ & Hsp).
  destruct after as [|c after]; [done|].
  simpl in Hsp. inversion Hsp; inversion Ha; congruence.
Qed.

Lemma match_here_upper (before after : list ascii) :
  Forall (fun c => is_upper c = false) after → match_here before after = None.
Proof.
  intros Ha. destruct (match_here before after) as [n|] eqn:Hm; [|done].
  apply match_here_spec in Hm as (_ & k & u & tl & -> & Hd & Hu & _).
  assert (u ∈ after) as Hin.
  { rewrite <- (take_drop (S k) after), Hd. set_solver. }
  rewrite list.Forall_forall in Ha. specialize (Ha u Hin). congruence.
Qed.

(** A text that lacks full stops and question marks, or spaces, or capital
    letters is one sentence. *)
Lemma re_split_single (text : string) :
  Forall (fun c => is_stop c = false) (list_ascii_of_string text)
  ∨ Forall (fun c => is_space c = false) (list_ascii_of_string text)
  ∨ Forall (fun c => is_upper c = false) (list_ascii_of_string text) →
  re_split text = [text].
Proof.
  intros H. unfold re_split. rewrite scan_unmatched.
  - simpl. by rewrite string_of_list_ascii_of_string.
  - intros pre post Heq. rewrite Heq in H. rewrite app_nil_r.
    destruct H as [H|[H|H]]; apply Forall_app in H as [Hpre Hpost].
    + apply match_here_stop. by apply Forall_rev.
    + by apply match_here_space.
    + by apply match_here_upper.
Qed.

End GrammarShapeFacts.

(** X1.  A text without full stop and question mark, or without a space,
    or without a capital letter, is never split: [split_text] returns the
    single batch holding the text itself, and [correct_text] returns the
    text when the checker answers [LABEL_1] with a score that is not below
    0.9 (a NaN score included) and the corrector's output for the whole
    text otherwise, whatever the separator. *)
Theorem single_sentence_text
    (checker : string → string * float) (corrector : string → string)
    (text separator : string) :
  Forall (fun c => Grammar.is_stop c = false) (list_ascii_of_string text)
  ∨ Forall (fun c => Grammar.is_space c = false) (list_ascii_of_string text)
  ∨ Forall (fun c => Grammar.is_upper c = false) (list_ascii_of_string text) →
  Grammar.split_text text = Ok [[text]]
  ∧ Grammar.correct_text checker corrector text separator
    = Ok (if bool_decide ((checker text).1 = "LABEL_1"%string)
             && negb (Grammar.score_lt (checker text).2 Grammar.threshold)
          then text else corrector text).
Proof.
  intros H%GrammarShapeFacts.re_split_single.
  assert (Grammar.split_text text = Ok [[text]]) as Hsplit.
  { unfold Grammar.split_text. rewrite H.
    unfold Grammar.batch_sentences. cbn -[py_index].
    rewrite (py_index_last [text] text eq_refl). cbn.
    by rewrite bool_decide_eq_true_2. }
  split; [done|].
  unfold Grammar.correct_text. rewrite Hsplit. simpl.
  by rewrite GrammarFacts.correct_step_output.
Qed.

Lemma single_sentence_text_witness :
  Grammar.split_text "he go to school yesterday" = Ok [["he go to school yesterday"%string]]
  ∧ Grammar.correct_text (fun _ => ("LABEL_0"%string, finite (99 # 100)))
      (fun _ => "He went to school yesterday."%string)
      "he go to school yesterday" ", "
    = Ok "He went to school yesterday."%string.
Proof.
  apply (single_sentence_text
           (fun _ => ("LABEL_0"%string, finite (99 # 100)))
           (fun _ => "He went to school yesterday."%string)
           "he go to school yesterday" ", ").
  left. repeat constructor.
Defined.

Module SentenceFacts.
Import Grammar GrammarShape GrammarShapeFacts.

Lemma space_not_upper (c : ascii) : is_space c = true → is_upper c = false.
Proof. unfold is_space. by intros ->%bool_decide_eq_true. Qed.

Lemma space_not_stop (c : ascii) : is_space c = true → is_stop c = false.
Proof. unfold is_space. by intros ->%bool_decide_eq_true. Qed.

(** Every piece after the first starts with a capital letter: a piece is
    opened where the look-ahead saw one. *)
Lemma scan_starts_upper (after : list ascii) :
  ∀ before cur skip,
    (skip ≠ O → cur = [] ∧ starts_upper (drop skip after)) →
    ∃ p ps,
      re_split_scan before cur skip after = p :: ps
      ∧ Forall starts_upper ps
      ∧ (cur = [] → starts_upper (drop skip after) → starts_upper p).
Proof.
  induction after as [|c rest IH]; intros before cur skip Hskip.
  - exists (rev cur), []. split_and!; [done|done|].
    intros _ (u & tl & Hd & _). by destruct skip.
  - destruct skip as [|k].
    + assert (∀ n, match_here before (c :: rest) ≠ Some (S n) →
        ∃ p ps, re_split_scan (c :: before) (c :: cur) O rest = p :: ps
                ∧ Forall starts_upper ps
                ∧ (cur = [] → starts_upper (drop O (c :: rest)) → starts_upper p))
        as Hpush.
      { intros _ _.
        destruct (IH (c :: before) (c :: cur) O) as (p & ps & Heq & Hps & _);
          [done|].
        destruct (scan_first rest (c :: before) (c :: cur) O)
          as (suffix & ps' & Heq').
        rewrite Heq in Heq'. injection Heq' as -> ->.
        eexists _, _. split_and!; [done|done|].
        intros -> (u & tl & [= <- <-] & Hu). by exists c, suffix. }
      simpl. destruct (match_here before (c :: rest)) as [[|k]|] eqn:Hm;
        [by apply (Hpush O)| |by apply (Hpush O)].
      apply match_here_spec in Hm as (_ & k' & u & tl & [= <-] & Hd & Hu & Hsp).
      simpl in Hd, Hsp. inversion Hsp as [|? ? Hc _]; subst.
      destruct (IH (c :: before) [] k) as (p & ps & Heq & Hps & Hp).
      { intros _. split; [done|]. by exists u, tl. }
      exists (rev cur), (p :: ps). rewrite Heq. split_and!; [done| |].
      * constructor; [|done]. apply Hp; [done|]. by exists u, tl.
      * intros _ (u' & tl' & [= <- <-] & Hu').
        apply space_not_upper in Hc. congruence.
    + destruct Hskip as [-> Hup]; [done|]. simpl in Hup. simpl.
      destruct (IH (c :: before) [] k) as (p & ps & Heq & Hps & Hp); [done|].
      exists p, ps. split_and!; [done|done|]. intros _ _. by apply Hp.
Qed.

(** Every piece but the last ends with a full stop or question mark: a
    piece is closed where the look-behind saw one. *)
Lemma scan_ends_stop (after : list ascii) :
  ∀ before cur skip,
    synced before cur skip after →
    all_but_last ends_stop (re_split_scan before cur skip after).
Proof.
  induction after as [|c rest IH]; intros before cur skip (Hsp & Hnil & Hcur);
    [done|].
  destruct skip as [|k].
  - assert (synced (c :: before) (c :: cur) O rest) as Hpush.
    { split_and!; [by constructor|done|done]. }
    simpl. destruct (match_here before (c :: rest)) as [[|k]|] eqn:Hm;
      [by apply IH| |by apply IH].
    apply match_here_spec in Hm as (Hlb & k' & u & tl & [= <-] & _ & _ & Hsp').
    simpl in Hsp'. inversion Hsp' as [|? ? Hc Hrest]; subst.
    destruct (scan_first rest (c :: before) [] k) as (suffix & ps & Heq).
    assert (all_but_last ends_stop (re_split_scan (c :: before) [] k rest))
      as Htail.
    { apply IH. split_and!; [done| |done].
      intros _ _ b tl' [= <- <-]. by apply space_not_stop. }
    rewrite Heq in *. split; [|done].
    apply lookbehind_stop in Hlb as (b & tl' & -> & Hb).
    destruct cur as [|x cur'].
    + rewrite (Hnil eq_refl eq_refl b tl' eq_refl) in Hb. done.
    + destruct Hcur as [_ [= ->]]; [done|]. by exists (rev cur'), b.
  - destruct cur as [|x cur']; [|by destruct Hcur as [? _]].
    simpl. apply IH. simpl in Hsp. inversion Hsp as [|? ? Hc Hrest]; subst.
    split_and!; [done| |done].
    intros _ _ b tl' [= <- <-]. by apply space_not_stop.
Qed.

Lemma all_but_last_lookup {A} (P : A → Prop) (l : list A) (i : nat) (x : A) :
  all_but_last P l → l !! i = Some x → (S i < length l)%nat → P x.
Proof.
  revert i. induction l as [|y [|z l] IH]; intros i Hall Hi Hlen;
    [done|simpl in Hlen; lia|].
  destruct Hall as [Hy Hall]. destruct i as [|i].
  - by injection Hi as <-.
  - apply (IH i); [done|done|]. simpl in *. lia.
Qed.

Lemma concat_cons_ne (sep x : string) (l : list string) :
  l ≠ [] → String.concat sep (x :: l) = x +:+ sep +:+ String.concat sep l.
Proof. by destruct l. Qed.

(** Joining the pieces of a text without adjacent spaces by one space
    gives the text back. *)
Lemma scan_join (after : list ascii) :
  ∀ before cur,
    single_spaced after = true →
    String.concat " " (string_of_list_ascii <$> re_split_scan before cur O after)
    = string_of_list_ascii (rev cur ++ after).
Proof.
  induction after as [|c rest IH]; intros before cur Hss.
  - simpl. by rewrite app_nil_r.
  - assert (single_spaced rest = true) as Hss'.
    { simpl in Hss. by apply andb_true_iff in Hss as [_ ?]. }
    assert (String.concat " "
              (string_of_list_ascii <$> re_split_scan (c :: before) (c :: cur) O rest)
            = string_of_list_ascii (rev cur ++ c :: rest)) as Hpush.
    { rewrite IH by done. simpl. by rewrite <- app_assoc. }
    simpl. destruct (match_here before (c :: rest)) as [[|k]|] eqn:Hm;
      [done| |done].
    apply match_here_spec in Hm as (_ & k' & u & tl & [= <-] & Hd & _ & Hsp).
    simpl in Hd, Hsp. inversion Hsp as [|? ? Hc Hrest]; subst.
    assert (k = O) as ->.
    { destruct k as [|k]; [done|]. destruct rest as [|c2 rest]; [done|].
      simpl in Hrest. inversion Hrest as [|? ? Hc2 _]; subst.
      simpl in Hss. rewrite Hc, Hc2 in Hss. done. }
    destruct (scan_first rest (c :: before) [] O) as (suffix & ps & Heq).
    rewrite fmap_cons, concat_cons_ne by (rewrite Heq; done).
    rewrite IH by done. simpl.
    rewrite string_of_list_ascii_app.
    unfold is_space in Hc. apply bool_decide_eq_true in Hc as ->. done.
Qed.

Lemma concat_app_ne (sep : string) (l1 l2 : list string) :
  l1 ≠ [] → l2 ≠ [] →
  String.concat sep (l1 ++ l2)
  = String.concat sep l1 +:+ sep +:+ String.concat sep l2.
Proof.
  intros Hl1 Hl2. induction l1 as [|x [|y l1] IH]; [done| |].
  - by apply concat_cons_ne.
  - change (String.concat sep ((x :: y :: l1) ++ l2))
      with (x +:+ sep +:+ String.concat sep ((y :: l1) ++ l2)).
    rewrite IH by done.
    change (String.concat sep (x :: y :: l1))
      with (x +:+ sep +:+ String.concat sep (y :: l1)).
    by rewrite !string_app_assoc.
Qed.

(** Joining the joined batches is joining all their sentences. *)
Lemma join_flatten (sep : string) (batches : list (list string)) :
  Forall (fun b => b ≠ []) batches →
  String.concat sep (String.concat sep <$> batches)
  = String.concat sep (concat batches).
Proof.
  induction 1 as [|b [|b2 bs] Hb Hbs IH].
  - done.
  - simpl. by rewrite app_nil_r.
  - rewrite fmap_cons, concat_cons_ne by done. rewrite IH.
    change (concat (b :: b2 :: bs)) with (b ++ concat (b2 :: bs)).
    rewrite concat_app_ne; [done|done|].
    inversion Hbs; subst. simpl. by destruct b2.
Qed.

Lemma small_nonempty (batches : list (list string)) :
  Forall small batches → Forall (fun b => b ≠ []) batches.
Proof.
  apply Forall_impl. intros b [Hb|Hb] ->; simpl in Hb; lia.
Qed.

Lemma small_length (batches : list (list string)) :
  Forall small batches →
  (length batches ≤ length (concat batches) ≤ 2 * length batches)%nat.
Proof.
  induction 1 as [|b bs [Hb|Hb] _ IH]; simpl; [lia| |];
    rewrite length_app; lia.
Qed.

End SentenceFacts.

(** X2.  Every sentence [re.split] yields after the first starts with a
    capital letter A-Z, and every sentence but the last ends with a full
    stop or a question mark. *)
Theorem sentences_shape (text : string) (i : nat) (sentence : string) :
  Grammar.re_split text !! i = Some sentence →
  ((0 < i)%nat →
     ∃ c rest, sentence = String c rest ∧ Grammar.is_upper c = true)
  ∧ ((S i < length (Grammar.re_split text))%nat →
     ∃ front c, sentence = front +:+ String c "" ∧ Grammar.is_stop c = true).
Proof.
  unfold Grammar.re_split. rewrite list_lookup_fmap, length_fmap.
  destruct (_ !! i) as [p|] eqn:Hi; [|done]. intros [= <-]. split.
  - intros Hpos.
    destruct (SentenceFacts.scan_starts_upper (list_ascii_of_string text) [] [] O)
      as (p0 & ps & Heq & Hps & _); [done|].
    rewrite Heq in Hi. destruct i as [|i]; [lia|]. simpl in Hi.
    rewrite list.Forall_forall in Hps.
    destruct (Hps p) as (c & rest & -> & Hc).
    { by eapply list_elem_of_lookup_2. }
    by exists c, (string_of_list_ascii rest).
  - intros Hlen.
    destruct (SentenceFacts.all_but_last_lookup GrammarShape.ends_stop
                (Grammar.re_split_scan [] [] O (list_ascii_of_string text)) i p)
      as (front & c & -> & Hc); [|done|done|].
    { apply SentenceFacts.scan_ends_stop. by split_and!. }
    exists (string_of_list_ascii front), c.
    by rewrite GrammarShapeFacts.string_of_list_ascii_app.
Qed.

Lemma sentences_shape_witness :
  ((0 < 1)%nat →
     ∃ c rest, "Was it so?"%string = String c rest ∧ Grammar.is_upper c = true)
  ∧ ((2 < length (Grammar.re_split "It was. Was it so? Yes it was"))%nat →
     ∃ front c, "Was it so?"%string = front +:+ String c ""
                ∧ Grammar.is_stop c = true).
Proof.
  apply (sentences_shape "It was. Was it so? Yes it was" 1 "Was it so?").
  reflexivity.
Defined.

(** X3.  With the default separator, a text without two adjacent spaces
    whose batches the checker all accepts comes back unchanged from
    [correct_text]. *)
Theorem accepted_text_unchanged
    (checker : string → string * float) (corrector : string → string)
    (text : string) :
  GrammarShape.single_spaced (list_ascii_of_string text) = true →
  (∀ raw_text, GrammarShape.accepts checker raw_text) →
  Grammar.correct_text checker corrector text " " = Ok text.
Proof.
  intros Hss Hacc. unfold Grammar.correct_text, Grammar.split_text.
  destruct (GrammarFacts.batch_sentences_spec (Grammar.re_split text))
    as (batches & -> & Hcat & Hsmall).
  simpl. rewrite GrammarFacts.correct_loop_output. simpl. f_equal.
  assert (Grammar.batch_output checker corrector <$> batches
          = String.concat " " <$> batches) as ->.
  { apply list_fmap_ext. intros _ b _.
    unfold Grammar.batch_output, Grammar.score_lt, Grammar.float_lt.
    destruct (Hacc (String.concat " " b)) as [Hl Hs].
    destruct (checker (String.concat " " b)) as [label [|score]]; [done|].
    simpl in *. apply Qle_bool_iff in Hs.
    by rewrite Hs, bool_decide_eq_true_2. }
  rewrite SentenceFacts.join_flatten by by apply SentenceFacts.small_nonempty.
  rewrite Hcat. unfold Grammar.re_split.
  rewrite SentenceFacts.scan_join by done. simpl.
  apply string_of_list_ascii_of_string.
Qed.

Lemma accepted_text_unchanged_witness :
  Grammar.correct_text (fun _ => ("LABEL_1"%string, finite (95 # 100)))
    (fun _ => "never used"%string)
    "It was fine. Was it? Yes. It really was." " "
  = Ok "It was fine. Was it? Yes. It really was."%string.
Proof.
  apply accepted_text_unchanged.
  - reflexivity.
  - intros raw_text. split; [reflexivity|]. unfold Qle. simpl. lia.
Defined.

(** X4.  [split_text] makes at most one batch per sentence and at least
    one batch per two sentences, so [correct_text] calls the checker
    between n/2 and n times for n sentences. *)
Theorem split_text_batch_count (text : string) :
  ∃ batches,
    Grammar.split_text text = Ok batches
    ∧ (length batches ≤ length (Grammar.re_split text) ≤ 2 * length batches)%nat.
Proof.
  destruct (GrammarFacts.batch_sentences_spec (Grammar.re_split text))
    as (batches & Hrun & Hcat & Hsmall).
  exists batches. split; [done|]. rewrite <- Hcat.
  by apply SentenceFacts.small_length.
Qed.

(** ** Classification notebook: the metric over any run of calls *)

Module AccuracyCallsFacts.
Import Accuracy AccuracyCalls.

Lemma indicators_01 np_argsort top_k call :
  Forall indicator (indicators np_argsort top_k call).
Proof.
  apply list.Forall_forall. intros q (i & p & t & -> & _)%elem_of_lookup_zip_with.
  unfold indicator, float_of_bool. destruct (bool_decide _); auto.
Qed.

(** Whatever calls are made, the name and [top_k] stay as they are and the
    match lists hold indicators only. *)
Lemma run_inv np_argsort (calls : list call) :
  ∀ self,
    Forall (Forall indicator) (_matches self) →
    _name (run np_argsort self calls) = _name self
    ∧ _top_k (run np_argsort self calls) = _top_k self
    ∧ Forall (Forall indicator) (_matches (run np_argsort self calls)).
Proof.
  unfold run. induction calls as [|c calls IH]; intros self Hm; [done|].
  simpl.
  assert (_name (after np_argsort self c) = _name self
          ∧ _top_k (after np_argsort self c) = _top_k self
          ∧ Forall (Forall indicator) (_matches (after np_argsort self c)))
    as (Hn & Hk & Hm').
  { destruct c as [output target|]; [|by repeat split; try constructor].
    simpl. unfold update.
    destruct (update_match np_argsort self output target) as [m|e] eqn:Hu;
      [|done].
    apply AccuracyFacts.update_match_indicators in Hu as [-> _]. simpl.
    split_and!; [done|done|].
    apply Forall_app. split; [done|].
    apply Forall_singleton, indicators_01. }
  destruct (IH _ Hm') as (Hn' & Hk' & Hm''). by rewrite Hn', Hk', Hn, Hk.
Qed.

Lemma np_ravel_Ok (m : list (list Q)) (a : list Q) :
  np_ravel m = Ok a → a = concat m.
Proof.
  unfold np_ravel. destruct m as [|r rs]; [by intros [= <-]|].
  destruct (forallb _ rs); [by intros [= <-]|done].
Qed.

Lemma Qsum_indicators (a : list Q) :
  Forall indicator a →
  (0 <= Qsum a)%Q ∧ (Qsum a <= inject_Z (Z.of_nat (length a)))%Q.
Proof.
  induction 1 as [|q a Hq _ [IH0 IH1]]; [done|].
  change (Qsum (q :: a)) with (Qplus q (Qsum a)).
  replace (Z.of_nat (length (q :: a))) with (1 + Z.of_nat (length a))
    by (simpl length; lia).
  rewrite inject_Z_plus.
  assert ((0 <= q)%Q ∧ (q <= inject_Z 1)%Q) as [Hq0 Hq1]
    by (destruct Hq as [->| ->]; done).
  split.
  - change (0 # 1) with (Qplus 0 0). by apply Qplus_le_compat.
  - by apply Qplus_le_compat.
Qed.

Lemma elem_of_drop_le {A} (l : list A) (a b : nat) (x : A) :
  (a ≤ b)%nat → x ∈ drop b l → x ∈ drop a l.
Proof.
  intros Hab. replace b with (a + (b - a))%nat by lia.
  rewrite <- drop_drop. intros Hx.
  rewrite <- (take_drop (b - a) (drop a l)). set_solver.
Qed.

Lemma py_slice_from_drop {A} (start : Z) (l : list A) :
  ∃ n, py_slice_from start l = drop n l
       ∧ (start < 0 → n = (length l - Z.to_nat (- start))%nat)
       ∧ (start = 0 → n = O).
Proof.
  unfold py_slice_from. eexists. split; [done|].
  split; intros Hs; destruct (Z.ltb_spec start 0); lia.
Qed.

End AccuracyCallsFacts.

(** X5.  The metric's name is fixed at construction as
    ["accuracy@top"] followed by [top_k] in decimal; no run of [update] and
    [reset] calls changes it, and [value], [avg_value] and
    [get_attributes] all report under that one key. *)
Theorem metric_name_fixed
    (np_argsort : list Q → list Z) (top_k : Z)
    (calls : list AccuracyCalls.call) :
  let self := AccuracyCalls.run np_argsort (Accuracy.init top_k) calls in
  let name := ("accuracy@top" +:+ pretty top_k)%string in
  Accuracy._name self = name
  ∧ (AccuracyCalls.get_attributes self).*1 = [name]
  ∧ (∀ v, Accuracy.value self = Ok v → v.*1 = [name])
  ∧ (∀ v, Accuracy.avg_value self = Ok v → v.*1 = [name]).
Proof.
  intros self name.
  destruct (AccuracyCallsFacts.run_inv np_argsort calls (Accuracy.init top_k))
    as (Hn & _ & _); [constructor|].
  fold self in Hn. change (Accuracy._name (Accuracy.init top_k)) with name in Hn.
  split_and!; [done|by simpl; rewrite Hn| |].
  - intros v. unfold Accuracy.value.
    destruct (py_index _ _); [|done]. intros [= <-]. simpl. by rewrite Hn.
  - intros v. unfold Accuracy.avg_value.
    destruct (np_ravel _); [|done]. intros [= <-]. simpl. by rewrite Hn.
Qed.

(** X6.  Whatever [update] and [reset] calls were made since construction,
    a number that [avg_value] returns lies between 0 and 1. *)
Theorem avg_value_in_unit_interval
    (np_argsort : list Q → list Z) (top_k : Z)
    (calls : list AccuracyCalls.call) (name : string) (q : Q) :
  Accuracy.avg_value (AccuracyCalls.run np_argsort (Accuracy.init top_k) calls)
  = Ok [(name, finite q)] →
  (0 <= q)%Q ∧ (q <= 1)%Q.
Proof.
  destruct (AccuracyCallsFacts.run_inv np_argsort calls (Accuracy.init top_k))
    as (_ & _ & Hm); [constructor|].
  unfold Accuracy.avg_value.
  destruct (np_ravel _) as [a|e] eqn:Ha; [|done].
  apply AccuracyCallsFacts.np_ravel_Ok in Ha as ->.
  set (a := concat _) in *.
  assert (Forall AccuracyCalls.indicator a) as Ha by by apply Forall_concat.
  simpl. unfold np_mean. destruct a as [|x a'] eqn:Heq; [done|].
  rewrite <- Heq in *. intros [= _ <-].
  destruct (AccuracyCallsFacts.Qsum_indicators a Ha) as [H0 H1].
  assert (0 < inject_Z (Z.of_nat (length a)))%Q as Hpos.
  { rewrite Heq. rewrite <- (Zlt_Qlt 0). simpl length. lia. }
  split.
  - apply Qle_shift_div_l; [done|]. by rewrite Qmult_0_l.
  - apply Qle_shift_div_r; [done|]. by rewrite Qmult_1_l.
Qed.

Lemma avg_value_in_unit_interval_witness :
  Accuracy.avg_value
    (AccuracyCalls.run Accuracy.stable_argsort (Accuracy.init 1)
       [ AccuracyCalls.Update [[[1 # 10; 9 # 10]]] (Accuracy.AsList [1]);
         AccuracyCalls.Reset;
         AccuracyCalls.Update [] (Accuracy.AsList []);
         AccuracyCalls.Update [[[1 # 10; 9 # 10]; [3 # 10; 7 # 10]]]
           (Accuracy.AsList [1; 0]) ])
  = Ok [("accuracy@top1"%string, finite (1 # 2))]
  ∧ (0 <= 1 # 2)%Q ∧ (1 # 2 <= 1)%Q.
Proof.
  split; [reflexivity|].
  apply (avg_value_in_unit_interval Accuracy.stable_argsort 1
           [ AccuracyCalls.Update [[[1 # 10; 9 # 10]]] (Accuracy.AsList [1]);
             AccuracyCalls.Reset;
             AccuracyCalls.Update [] (Accuracy.AsList []);
             AccuracyCalls.Update [[[1 # 10; 9 # 10]; [3 # 10; 7 # 10]]]
               (Accuracy.AsList [1; 0]) ]
           "accuracy@top1" (1 # 2)).
  reflexivity.
Defined.

(** X7.  A sample that counts as a match for some [top_k >= 1] still
    counts for every larger [top_k]; and a sample that counts for any
    [top_k] at all counts for [top_k = 0], where the slice [-0:] keeps the
    whole row. *)
Theorem top_k_monotone
    (np_argsort : list Q → list Z) (k k' : Z)
    (call : list ndarray2 * Accuracy.annotations) (i : nat) :
  Accuracy.indicators np_argsort k call !! i = Some (1 # 1) →
  (0 < k ≤ k' → Accuracy.indicators np_argsort k' call !! i = Some (1 # 1))
  ∧ Accuracy.indicators np_argsort 0 call !! i = Some (1 # 1).
Proof.
  unfold Accuracy.indicators, Accuracy.top_predictions.
  intros (p & t & Hv & Hp & Ht)%lookup_zip_with_Some.
  rewrite list_lookup_fmap in Hp.
  destruct (default [] (head call.1) !! i) as [row|] eqn:Hrow; [|done].
  injection Hp as <-.
  assert (t ∈ py_slice_from (- k) (np_argsort row)) as Hin.
  { unfold float_of_bool in Hv. case_bool_decide; [done|discriminate]. }
  assert (∀ k2, t ∈ py_slice_from (- k2) (np_argsort row) →
            zip_with (fun p t => float_of_bool (bool_decide (t ∈ p)))
              ((fun row => py_slice_from (- k2) (np_argsort row))
                 <$> default [] (head call.1))
              (Accuracy.labels call.2) !! i = Some (1 # 1)) as Hhit.
  { intros k2 Hk2. rewrite lookup_zip_with, list_lookup_fmap, Hrow, Ht. simpl.
    by rewrite bool_decide_eq_true_2. }
  split.
  - intros [Hk Hkk']. apply Hhit.
    destruct (AccuracyCallsFacts.py_slice_from_drop (- k) (np_argsort row))
      as (n & Hn & Hnk & _).
    destruct (AccuracyCallsFacts.py_slice_from_drop (- k') (np_argsort row))
      as (n' & Hn' & Hnk' & _).
    rewrite Hn in Hin. rewrite Hn'.
    apply (AccuracyCallsFacts.elem_of_drop_le _ n' n); [|done].
    rewrite Hnk, Hnk' by lia. lia.
  - apply Hhit.
    destruct (AccuracyCallsFacts.py_slice_from_drop (- k) (np_argsort row))
      as (n & Hn & _).
    destruct (AccuracyCallsFacts.py_slice_from_drop (- 0) (np_argsort row))
      as (n0 & Hn0 & _ & Hz).
    rewrite Hn in Hin. rewrite Hn0, (Hz eq_refl).
    apply (AccuracyCallsFacts.elem_of_drop_le _ O n); [lia|done].
Qed.

Lemma top_k_monotone_witness :
  (0 < 1 ≤ 2 →
   Accuracy.indicators Accuracy.stable_argsort 2
     ([[[1 # 10; 9 # 10; 5 # 10]]], Accuracy.AsList [1]) !! O = Some (1 # 1))
  ∧ Accuracy.indicators Accuracy.stable_argsort 0
      ([[[1 # 10; 9 # 10; 5 # 10]]], Accuracy.AsList [1]) !! O = Some (1 # 1).
Proof.
  apply (top_k_monotone Accuracy.stable_argsort 1 2
           ([[[1 # 10; 9 # 10; 5 # 10]]], Accuracy.AsList [1]) O).
  reflexivity.
Defined.

(** ** Classification notebook: pictures and labels *)

Module CifarPicturesFacts.
Import CifarPictures.

Lemma enumerate_snoc {A} (l : list A) (x : A) :
  enumerate (l ++ [x]) = enumerate l ++ [(Z.of_nat (length l), x)].
Proof.
  unfold enumerate. rewrite imap_app. simpl. by rewrite Nat.add_0_r.
Qed.

(** The loop of [load_data] unzips the dataset and numbers it. *)
Lemma load_data_loop {Image} (dataset : list (Image * Z)) :
  foldl load_data_step ([], [], []) (enumerate dataset)
  = (dataset.*1, dataset.*2, seqZ 0 (Z.of_nat (length dataset))).
Proof.
  induction dataset as [|[image label] dataset IH] using rev_ind; [done|].
  rewrite enumerate_snoc, foldl_snoc, IH. simpl.
  rewrite !fmap_app, length_app. simpl.
  replace (length dataset + 1)%nat with (S (length dataset)) by lia.
  by rewrite seqZ_S.
Qed.

Lemma py_index_Ok {A} (l : list A) (i : Z) (x : A) :
  py_index l i = Ok x →
  x ∈ l ∧ - Z.of_nat (length l) ≤ i < Z.of_nat (length l).
Proof.
  unfold py_index.
  destruct (Z.ltb_spec i 0); destruct (Z.leb_spec 0 (i + Z.of_nat (length l)));
    destruct (Z.leb_spec 0 i);
    destruct (Z.ltb_spec (i + Z.of_nat (length l)) (Z.of_nat (length l)));
    destruct (Z.ltb_spec i (Z.of_nat (length l))); simpl; try done;
    (destruct (l !! _) as [y|] eqn:Hy; [|done]); intros [= <-];
    (split; [by eapply list_elem_of_lookup_2|lia]).
Qed.

Section InferFacts.
Context {Picture : Type}.
Variable model : Picture → list (list Q).
Variable all_pictures : list Picture.

Lemma infer_step_Returns (acc : list string) (idx : Z) (out : list string) :
  infer_step model all_pictures acc idx = Returns out →
  ∃ name, out = acc ++ [name] ∧ name ∈ labels_names
          ∧ idx < 10000
          ∧ - Z.of_nat (length all_pictures) ≤ idx < Z.of_nat (length all_pictures).
Proof.
  unfold infer_step. destruct (Z.ltb_spec idx 10000); [|done]. simpl.
  destruct (py_index all_pictures idx) as [picture|] eqn:Hpic; [|done]. simpl.
  destruct (py_index (model picture) 0) as [row|]; [|done]. simpl.
  destruct (Speech.np_argmax_row row) as [k|]; [|done]. simpl.
  destruct (py_index labels_names k) as [name|] eqn:Hname; [|done]. simpl.
  intros [= <-]. exists name.
  apply py_index_Ok in Hpic as [_ ?], Hname as [? _]. done.
Qed.

Lemma infer_loop_Returns (indexes : list Z) :
  ∀ acc out,
    for_each (infer_step model all_pictures) acc indexes = Returns out →
    ∃ names, out = acc ++ names
      ∧ length names = length indexes
      ∧ Forall (fun name => name ∈ labels_names) names
      ∧ Forall (fun idx => idx < 10000
                  ∧ - Z.of_nat (length all_pictures) ≤ idx
                    < Z.of_nat (length all_pictures)) indexes.
Proof.
  induction indexes as [|idx indexes IH]; intros acc out; simpl.
  - intros [= <-]. exists []. by rewrite app_nil_r.
  - destruct (infer_step model all_pictures acc idx) as [acc'|e] eqn:Hstep;
      [|done]. simpl.
    apply infer_step_Returns in Hstep as (name & -> & Hname & Hlt & Hrange).
    intros (names & -> & Hlen & Hnames & Hidx)%IH.
    exists (name :: names). rewrite <- app_assoc. simpl.
    split_and!; [done|by rewrite Hlen|by constructor|by constructor].
Qed.
End InferFacts.

End CifarPicturesFacts.

(** X8.  [load_data] unzips the dataset: it returns the indexes
    0, ..., n-1, the pictures and the labels, each in dataset order, and
    entry [i] of the three lists is what [__getitem__] serves at index
    [i]. *)
Theorem load_data_unzips
    {Image Array : Type} (numpy : Image → Array) (config : string)
    (dataset : list (Image * Z)) :
  CifarPictures.load_data dataset
  = (seqZ 0 (Z.of_nat (length dataset)), dataset.*1, dataset.*2)
  ∧ ∀ (i : nat) (idx : Z) (picture : Image) (label : Z),
      (CifarPictures.load_data dataset).1.1 !! i = Some idx →
      (CifarPictures.load_data dataset).1.2 !! i = Some picture →
      (CifarPictures.load_data dataset).2 !! i = Some label →
      CifarDataLoader.getitem numpy (CifarDataLoader.init config dataset) idx
      = Ok ((idx, label), numpy picture).
Proof.
  assert (CifarPictures.load_data dataset
          = (seqZ 0 (Z.of_nat (length dataset)), dataset.*1, dataset.*2)) as Heq.
  { unfold CifarPictures.load_data.
    by rewrite CifarPicturesFacts.load_data_loop. }
  split; [done|]. rewrite Heq. simpl.
  intros i idx picture label [-> Hi]%lookup_seqZ Hpic Hlab.
  rewrite list_lookup_fmap in Hpic. rewrite list_lookup_fmap in Hlab.
  destruct (dataset !! i) as [[image label']|] eqn:Hd; [|done].
  simpl in Hpic, Hlab. injection Hpic as <-. injection Hlab as <-.
  unfold CifarDataLoader.getitem. simpl.
  rewrite Z.add_0_l, py_index_nat, Hd. done.
Qed.

(** X9.  When [infer_on_pictures] returns, it returns one label per
    index, each of them one of the ten CIFAR-10 names, and every index was
    below 10000 and within the pictures list (negative indexes counting
    from its end); with any other index it raises. *)
Theorem infer_on_pictures_labels
    {Picture : Type} (model : Picture → list (list Q))
    (indexes : list Z) (all_pictures : list Picture)
    (predicted_labels : list string) :
  CifarPictures.infer_on_pictures model indexes all_pictures
  = Returns predicted_labels →
  length predicted_labels = length indexes
  ∧ Forall (fun name => name ∈ CifarPictures.labels_names) predicted_labels
  ∧ Forall (fun idx => idx < 10000
              ∧ - Z.of_nat (length all_pictures) ≤ idx
                < Z.of_nat (length all_pictures)) indexes.
Proof.
  unfold CifarPictures.infer_on_pictures.
  intros (names & -> & Hlen & Hnames & Hidx)%CifarPicturesFacts.infer_loop_Returns.
  done.
Qed.

Lemma infer_on_pictures_labels_witness :
  CifarPictures.infer_on_pictures
    (fun picture : nat =>
       [(fun k => if (k =? picture)%nat then 1 # 1 else 0 # 1) <$> seq 0 10])
    [0; -1] [9%nat; 0%nat]
  = Returns ["truck"%string; "airplane"%string]
  ∧ length ["truck"%string; "airplane"%string] = length [0; -1]
  ∧ Forall (fun name => name ∈ CifarPictures.labels_names)
           ["truck"%string; "airplane"%string]
  ∧ Forall (fun idx => idx < 10000
              ∧ - Z.of_nat (length [9%nat; 0%nat]) ≤ idx
                < Z.of_nat (length [9%nat; 0%nat])) [0; -1].
Proof.
  split; [reflexivity|].
  apply (infer_on_pictures_labels
           (fun picture : nat =>
              [(fun k => if (k =? picture)%nat then 1 # 1 else 0 # 1) <$> seq 0 10])
           [0; -1] [9%nat; 0%nat] ["truck"%string; "airplane"%string]).
  reflexivity.
Defined.

(** ** Speech notebook: word error rate *)

Module SpeechWERFacts.
Import Speech SpeechWER.

Lemma infer_Ok (batch_decode : list (list Z) → list string)
    (pt_model ov_model : list (list Q) → logits) (sample : sample)
    (transcription : list string) :
  pt_model (input_values sample) = ov_model (input_values sample) →
  torch_infer batch_decode pt_model sample = Ok transcription
  ↔ ov_infer batch_decode ov_model sample = Ok transcription.
Proof.
  intros Heq. unfold torch_infer, ov_infer. rewrite <- Heq.
  pose proof (SpeechFacts.Ok_iff_cases _ _
                (SpeechFacts.argmax_Ok (pt_model (input_values sample))))
    as Hcases.
  destruct (torch_argmax _), (np_argmax _); try done. by subst.
Qed.

Lemma for_each_result_Ok_ext {S A} (f g : S → A → result S) (l : list A) :
  Forall (fun x => ∀ s s', f s x = Ok s' ↔ g s x = Ok s') l →
  ∀ s s', for_each_result f s l = Ok s' ↔ for_each_result g s l = Ok s'.
Proof.
  induction 1 as [|x l Hx _ IH]; intros s s'; simpl; [done|].
  pose proof (SpeechFacts.Ok_iff_cases _ _ (Hx s)) as Hcases.
  destruct (f s x), (g s x); try done. subst. apply IH.
Qed.

Lemma score_loop_length {WER Target}
    (wer_forward : WER → list string → Target → Q * WER)
    (pairs : list (string * Target)) :
  ∀ wer res,
    length (foldl (score_step wer_forward) (wer, res) pairs).2
    = (length res + length pairs)%nat.
Proof.
  induction pairs as [|[pred gt] pairs IH]; intros wer res; simpl; [lia|].
  destruct (wer_forward wer [pred] gt) as [v wer'].
  rewrite IH, length_app. simpl. lia.
Qed.

End SpeechWERFacts.

(** X10.  When the PyTorch model and the OpenVINO model give equal logits
    on every sample of the dataset, [compute_wer] with [torch_infer]
    returns a word error rate exactly when [compute_wer] with [ov_infer]
    returns the same one. *)
Theorem compute_wer_agrees
    {WER : Type} (wer_new : WER)
    (wer_update : WER → list string → list string → WER)
    (wer_compute : WER → Q)
    (batch_decode : list (list Z) → list string)
    (pt_model ov_model : list (list Q) → list (list (list Q)))
    (dataset : list Speech.sample) (r : Q) :
  Forall (fun sample => pt_model (Speech.input_values sample)
                        = ov_model (Speech.input_values sample)) dataset →
  SpeechWER.compute_wer wer_new wer_update wer_compute dataset pt_model
    (Speech.torch_infer batch_decode) = Ok r
  ↔ SpeechWER.compute_wer wer_new wer_update wer_compute dataset ov_model
      (Speech.ov_infer batch_decode) = Ok r.
Proof.
  intros Hsame. unfold SpeechWER.compute_wer.
  assert (Forall (fun sample => ∀ wer wer',
            SpeechWER.compute_wer_step wer_update
              (Speech.torch_infer batch_decode) pt_model wer sample = Ok wer'
            ↔ SpeechWER.compute_wer_step wer_update
                (Speech.ov_infer batch_decode) ov_model wer sample = Ok wer')
            dataset) as Hsteps.
  { eapply list.Forall_impl; [exact Hsame|].
    intros sample Heq wer wer'. unfold SpeechWER.compute_wer_step.
    pose proof (SpeechFacts.Ok_iff_cases _ _
      (fun t => SpeechWERFacts.infer_Ok batch_decode pt_model ov_model
                  sample t Heq)) as Hc.
    destruct (Speech.torch_infer _ _ _), (Speech.ov_infer _ _ _);
      try done. by subst. }
  pose proof (SpeechFacts.Ok_iff_cases _ _
    (SpeechWERFacts.for_each_result_Ok_ext _ _ dataset Hsteps wer_new))
    as Hcases.
  destruct (for_each_result _ _ _), (for_each_result _ _ _); try done.
  by subst.
Qed.

Lemma compute_wer_agrees_witness :
  SpeechWER.compute_wer O (fun wer preds target => S wer)
    (fun wer => inject_Z (Z.of_nat wer))
    [ {| Speech.input_values := [[1 # 2; 3 # 4]]; Speech.text := "a" |};
      {| Speech.input_values := [[5 # 1; 5 # 1]]; Speech.text := "b" |} ]
    (fun x => [x]) (Speech.torch_infer (fmap (fun _ => "x"%string))) = Ok (2 # 1)
  ↔ SpeechWER.compute_wer O (fun wer preds target => S wer)
      (fun wer => inject_Z (Z.of_nat wer))
      [ {| Speech.input_values := [[1 # 2; 3 # 4]]; Speech.text := "a" |};
        {| Speech.input_values := [[5 # 1; 5 # 1]]; Speech.text := "b" |} ]
      (fun x => [x]) (Speech.ov_infer (fmap (fun _ => "x"%string))) = Ok (2 # 1).
Proof.
  apply compute_wer_agrees. repeat constructor.
Defined.

(** X11.  When [WERMetric.update] returns, it returns one value per
    (transcription, target) pair, pairs beyond the shorter list being
    dropped; the transcriptions are those [ov_infer] gives for a model
    with logits [output[0]]; and afterwards [value] reports that
    per-sample list, not the accumulated rate. *)
Theorem wer_update_reports_last
    {WER Target : Type}
    (wer_forward : WER → list string → Target → Q * WER)
    (wer_compute : WER → Q)
    (batch_decode : list (list Z) → list string)
    (self : SpeechWER.t (WER := WER))
    (output : list (list (list (list Q)))) (target : list Target)
    (res : list Q) :
  (SpeechWER.update wer_forward batch_decode self output target).1 = Ok res →
  ∃ logits transcription,
    py_index output 0 = Ok logits
    ∧ (∀ sample, Speech.ov_infer batch_decode (fun _ => logits) sample
                 = Ok transcription)
    ∧ length res = (length transcription `min` length target)%nat
    ∧ SpeechWER.value wer_compute
        (SpeechWER.update wer_forward batch_decode self output target).2
      = [(SpeechWER._name self, SpeechWER.PerSample res)].
Proof.
  unfold SpeechWER.update.
  destruct (py_index output 0) as [logits|e] eqn:Hout; [|done]. simpl.
  destruct (Speech.np_argmax logits) as [ids|e] eqn:Hids; [|done]. simpl.
  pose proof (SpeechWERFacts.score_loop_length wer_forward
                (zip (batch_decode ids) target) (SpeechWER._wer self) [])
    as Hlen.
  destruct (foldl _ _ _) as [wer res']. simpl in *.
  intros [= <-]. exists logits, (batch_decode ids).
  split_and!; [done| |by rewrite Hlen, length_zip|done].
  intros sample. unfold Speech.ov_infer. by rewrite Hids.
Qed.

Lemma wer_update_reports_last_witness :
  ∃ logits transcription,
    py_index [[[[1 # 2; 3 # 4]; [2 # 1; 1 # 1]]]] 0 = Ok logits
    ∧ (∀ sample,
         Speech.ov_infer (fmap (fun ids => String.concat "," (pretty <$> ids)))
           (fun _ => logits) sample = Ok transcription)
    ∧ length [1 # 1] = (length transcription `min` length ["one"%string; "two"%string])%nat
    ∧ SpeechWER.value (fun wer : nat => inject_Z (Z.of_nat wer))
        (SpeechWER.update (fun (wer : nat) preds (gt : string) => (1 # 1, S wer))
           (fmap (fun ids => String.concat "," (pretty <$> ids)))
           {| SpeechWER._name := "WER"; SpeechWER._wer := O;
              SpeechWER._last_result := None |}
           [[[[1 # 2; 3 # 4]; [2 # 1; 1 # 1]]]]
           ["one"%string; "two"%string]).2
      = [("WER"%string, SpeechWER.PerSample [1 # 1])].
Proof.
  apply (wer_update_reports_last
           (fun (wer : nat) preds (gt : string) => (1 # 1, S wer))
           (fun wer : nat => inject_Z (Z.of_nat wer))
           (fmap (fun ids => String.concat "," (pretty <$> ids)))
           {| SpeechWER._name := "WER"; SpeechWER._wer := O;
              SpeechWER._last_result := None |}
           [[[[1 # 2; 3 # 4]; [2 # 1; 1 # 1]]]]
           ["one"%string; "two"%string] [1 # 1]).
  reflexivity.
Defined.

(** ** Segmentation notebook: validation bookkeeping *)

Module MonaiModelFacts.
Import MonaiModel.

Section Facts.
Context {Metric Batch : Type}.
Variable metric_update : Metric → Batch → Metric.
Variable metric_compute : Metric → Q.
Variable metric_reset : Metric → Metric.
Variable batch_loss : Batch → Q.
Variable batch_len : Batch → nat.

Local Abbreviation after :=
  (MonaiModel.after metric_update metric_compute metric_reset batch_loss batch_len).
Local Abbreviation run :=
  (MonaiModel.run metric_update metric_compute metric_reset batch_loss batch_len).

Lemma after_consistent (self : t (Metric := Metric)) (e : event) :
  consistent self →
  consistent (after self e)
  ∧ (best_val_dice self <= best_val_dice (after self e))%Q.
Proof.
  intros (Hbound & Hmem & Hepoch). destruct e as [batch|current_epoch]; simpl.
  - split; [|apply Qle_refl]. split_and!; simpl; [| |done].
    + intros v [Hv|Hv]%elem_of_app; [by apply Hbound|].
      apply list_elem_of_singleton in Hv. done.
    + destruct Hmem as [Hmem|Hmem]; [by left|right].
      apply elem_of_app. by left.
  - unfold on_validation_epoch_end.
    destruct (epoch_sums _) as [val_loss num_items].
    destruct (num_items =? 0); simpl; [by split; [|apply Qle_refl]|].
    destruct (Grammar.float_lt (best_val_dice self) (metric_compute (metric self)))
      eqn:Hlt.
    + apply SpeechFacts.float_lt_spec in Hlt. split; [|by apply Qlt_le_weak].
      split_and!; simpl.
      * intros v [Hv|Hv]%elem_of_app.
        -- apply Qle_trans with (best_val_dice self); [by apply Hbound|].
           by apply Qlt_le_weak.
        -- apply list_elem_of_singleton in Hv. injection Hv as ->.
           apply Qle_refl.
      * right. apply elem_of_app. right. by apply list_elem_of_singleton.
      * right. apply elem_of_app. right. apply elem_of_cons. right.
        by apply list_elem_of_singleton.
    + apply SpeechFacts.float_lt_false in Hlt. split; [|apply Qle_refl].
      split_and!; simpl.
      * intros v [Hv|Hv]%elem_of_app; [by apply Hbound|].
        apply list_elem_of_singleton in Hv. by injection Hv as ->.
      * destruct Hmem as [Hmem|Hmem]; [by left|right].
        apply elem_of_app. by left.
      * destruct Hepoch as [Hepoch|Hepoch]; [by left|right].
        apply elem_of_app. by left.
Qed.

Lemma run_consistent (events : list event) :
  ∀ self,
    consistent self →
    consistent (run self events)
    ∧ (best_val_dice self <= best_val_dice (run self events))%Q.
Proof.
  unfold MonaiModel.run.
  induction events as [|e events IH]; intros self Hself; simpl.
  - split; [done|apply Qle_refl].
  - destruct (after_consistent self e Hself) as [He Hle].
    destruct (IH _ He) as [Hrun Hle']. split; [done|].
    by eapply Qle_trans.
Qed.

Lemma run_app (events1 events2 : list event) (self : t (Metric := Metric)) :
  run self (events1 ++ events2) = run (run self events1) events2.
Proof. apply foldl_app. Qed.

(** The sums of the loop of [on_validation_epoch_end]. *)
Lemma epoch_sums_items (outputs : list step_output) :
  ∀ val_loss num_items,
    (foldl (fun '(val_loss, num_items) output =>
              (Qplus val_loss (MonaiModel.val_loss output),
               num_items + val_number output))
           (val_loss, num_items) outputs).2
    = num_items + foldr Z.add 0 (val_number <$> outputs).
Proof.
  induction outputs as [|o outputs IH]; intros val_loss num_items.
  - simpl. lia.
  - cbn [foldl]. rewrite IH. rewrite fmap_cons. cbn [foldr]. lia.
Qed.

Lemma steps_outputs (batches : list Batch) :
  ∀ self,
    validation_step_outputs (run self (Step <$> batches))
    = validation_step_outputs self
      ++ ((fun batch => {| val_loss := batch_loss batch;
                           val_number := Z.of_nat (batch_len batch) |})
            <$> batches).
Proof.
  unfold MonaiModel.run.
  induction batches as [|batch batches IH]; intros self; simpl.
  - by rewrite app_nil_r.
  - rewrite IH. simpl. by rewrite <- app_assoc.
Qed.

Lemma sum_nat_zero {A} (f : A → nat) (l : list A) :
  0 ≤ foldr Z.add 0 ((fun x => Z.of_nat (f x)) <$> l)
  ∧ (foldr Z.add 0 ((fun x => Z.of_nat (f x)) <$> l) = 0
     ↔ Forall (fun x => f x = O) l).
Proof.
  induction l as [|x l [IH0 IH]]; [done|].
  rewrite fmap_cons, list.Forall_cons, <- IH. cbn [foldr]. lia.
Qed.

Lemma sum_lens_zero (batches : list Batch) :
  foldr Z.add 0
    (val_number <$>
       ((fun batch => {| val_loss := batch_loss batch;
                         val_number := Z.of_nat (batch_len batch) |})
          <$> batches)) = 0
  ↔ Forall (fun batch => batch_len batch = O) batches.
Proof.
  rewrite <- list_fmap_compose.
  apply (sum_nat_zero batch_len batches).
Qed.
End Facts.

End MonaiModelFacts.

(** X12.  Over any sequence of validation steps and epoch ends from a new
    model, [best_val_dice] never decreases, it is at least every F1 value
    logged so far, and it is 0 or one of those values. *)
Theorem best_val_dice_is_best
    {Metric Batch : Type}
    (metric_update : Metric → Batch → Metric)
    (metric_compute : Metric → Q) (metric_reset : Metric → Metric)
    (batch_loss : Batch → Q) (batch_len : Batch → nat)
    (fresh_metric : Metric)
    (events1 events2 : list (MonaiModel.event (Batch := Batch))) :
  let run := MonaiModel.run metric_update metric_compute metric_reset
               batch_loss batch_len (MonaiModel.init fresh_metric) in
  (MonaiModel.best_val_dice (run events1)
   <= MonaiModel.best_val_dice (run (events1 ++ events2)))%Q
  ∧ (∀ v, ("F1"%string, v) ∈ MonaiModel.logged (run (events1 ++ events2)) →
          (v <= MonaiModel.best_val_dice (run (events1 ++ events2)))%Q)
  ∧ (MonaiModel.best_val_dice (run (events1 ++ events2)) = 0 # 1
     ∨ ("F1"%string, MonaiModel.best_val_dice (run (events1 ++ events2)))
       ∈ MonaiModel.logged (run (events1 ++ events2))).
Proof.
  intros run. subst run. rewrite MonaiModelFacts.run_app.
  assert (MonaiModel.consistent (MonaiModel.init fresh_metric)) as Hinit.
  { split_and!; simpl; [set_solver|by left|by left]. }
  destruct (MonaiModelFacts.run_consistent metric_update metric_compute
              metric_reset batch_loss batch_len events1 _ Hinit) as [H1 _].
  destruct (MonaiModelFacts.run_consistent metric_update metric_compute
              metric_reset batch_loss batch_len events2 _ H1)
    as [(Hbound & Hmem & _) Hle].
  done.
Qed.

(** X13.  Over any such sequence, [best_val_epoch] is the epoch at which
    the scalar "F1-score/Validation" was written with the value of
    [best_val_dice], unless both are still 0. *)
Theorem best_val_epoch_matches
    {Metric Batch : Type}
    (metric_update : Metric → Batch → Metric)
    (metric_compute : Metric → Q) (metric_reset : Metric → Metric)
    (batch_loss : Batch → Q) (batch_len : Batch → nat)
    (fresh_metric : Metric)
    (events : list (MonaiModel.event (Batch := Batch))) :
  let self := MonaiModel.run metric_update metric_compute metric_reset
                batch_loss batch_len (MonaiModel.init fresh_metric) events in
  (MonaiModel.best_val_dice self = 0 # 1 ∧ MonaiModel.best_val_epoch self = 0)
  ∨ ("F1-score/Validation"%string,
     MonaiModel.best_val_dice self, MonaiModel.best_val_epoch self)
    ∈ MonaiModel.scalars self.
Proof.
  intros self. subst self.
  assert (MonaiModel.consistent (MonaiModel.init fresh_metric)) as Hinit.
  { split_and!; simpl; [set_solver|by left|by left]. }
  destruct (MonaiModelFacts.run_consistent metric_update metric_compute
              metric_reset batch_loss batch_len events _ Hinit)
    as [(_ & _ & Hepoch) _].
  done.
Qed.

(** X14.  After the validation steps of an epoch, started with an empty
    outputs list, [on_validation_epoch_end] raises [ZeroDivisionError]
    exactly when every batch was empty (in particular when there was no
    batch); it then leaves the outputs, the best score and the logs as
    they were.  Otherwise it returns and clears the outputs, so that an
    epoch end following at once raises. *)
Theorem epoch_end_division
    {Metric Batch : Type}
    (metric_update : Metric → Batch → Metric)
    (metric_compute : Metric → Q) (metric_reset : Metric → Metric)
    (batch_loss : Batch → Q) (batch_len : Batch → nat)
    (self : MonaiModel.t (Metric := Metric))
    (batches : list Batch) (current_epoch next_epoch : Z) :
  MonaiModel.validation_step_outputs self = [] →
  let stepped := MonaiModel.run metric_update metric_compute metric_reset
                   batch_loss batch_len self (MonaiModel.Step <$> batches) in
  let ended := MonaiModel.on_validation_epoch_end metric_compute metric_reset
                 stepped current_epoch in
  (ended.1 = Throws ZeroDivisionError
   ↔ Forall (fun batch => batch_len batch = O) batches)
  ∧ (ended.1 = Throws ZeroDivisionError →
     MonaiModel.validation_step_outputs ended.2
     = MonaiModel.validation_step_outputs stepped
     ∧ MonaiModel.best_val_dice ended.2 = MonaiModel.best_val_dice stepped
     ∧ MonaiModel.scalars ended.2 = MonaiModel.scalars stepped
     ∧ MonaiModel.logged ended.2 = MonaiModel.logged stepped)
  ∧ (ended.1 ≠ Throws ZeroDivisionError →
     ended.1 = Returns ()
     ∧ MonaiModel.validation_step_outputs ended.2 = []
     ∧ (MonaiModel.on_validation_epoch_end metric_compute metric_reset
          ended.2 next_epoch).1 = Throws ZeroDivisionError).
Proof.
  intros Hempty stepped ended.
  pose proof (MonaiModelFacts.steps_outputs metric_update metric_compute
                metric_reset batch_loss batch_len batches self) as Hout.
  rewrite Hempty in Hout. simpl in Hout. fold stepped in Hout.
  pose proof (MonaiModelFacts.sum_lens_zero batch_loss batch_len batches)
    as Hzero.
  pose proof (MonaiModelFacts.epoch_sums_items
                (MonaiModel.validation_step_outputs stepped) (0 # 1) 0) as Hsum.
  subst ended. unfold MonaiModel.on_validation_epoch_end.
  fold (MonaiModel.epoch_sums (MonaiModel.validation_step_outputs stepped)) in Hsum.
  destruct (MonaiModel.epoch_sums _) as [val_loss num_items].
  simpl in Hsum. rewrite Hout in Hsum.
  destruct (Z.eqb_spec num_items 0) as [Hn|Hn]; simpl.
  - split_and!; [|done|done]. split; [intros _|done]. apply Hzero. lia.
  - split_and!; [|done|].
    + split; [done|]. intros Hall%Hzero. lia.
    + intros _. split_and!; done.
Qed.

Lemma epoch_end_division_witness :
  ((MonaiModel.on_validation_epoch_end (fun m : nat => 1 # 2) (fun _ => O)
      (MonaiModel.run (fun m _ => S m) (fun m : nat => 1 # 2) (fun _ => O)
         (fun batch : nat => 1 # 4) (fun batch : nat => batch)
         (MonaiModel.init O) (MonaiModel.Step <$> [0%nat; 0%nat])) 7).1
   = Throws ZeroDivisionError
   ↔ Forall (fun batch : nat => batch = O) [0%nat; 0%nat]).
Proof.
  apply (epoch_end_division (fun m _ => S m) (fun m : nat => 1 # 2)
           (fun _ => O) (fun batch : nat => 1 # 4) (fun batch : nat => batch)
           (MonaiModel.init O) [0%nat; 0%nat] 7 8).
  reflexivity.
Defined.

(** ** Segmentation notebook: which case goes where *)

Module DataModuleSplitFacts.
Import DataModule.

(** For every case number 0..209, the directory name is listed for
    training exactly when the number is a training index, and for
    validation exactly when it is a validation index. *)
Lemma case_names_by_index :
  Forall (fun i =>
            (case_name i ∈ train_cases ↔ i ∈ train_indices)
            ∧ (case_name i ∈ val_cases ↔ i ∈ val_indices))
         (seqZ 0 210).
Proof. compute_done. Qed.

Lemma test_cases_unused :
  Forall (fun i => (i ∉ train_indices) ∧ (i ∉ val_indices)
                   ∧ 0 ≤ i < 210) test_indices.
Proof. compute_done. Qed.

(** The propositional step from the filters to the index sets. *)
Lemma sort_logic (B1 B2 B3 B4 S I A1 A2 T V X : Prop) :
  (B1 ↔ A1 ∧ S) → (B2 ↔ A2 ∧ S) → (B3 ↔ A1 ∧ I) → (B4 ↔ A2 ∧ I) →
  (A1 ↔ T) → (A2 ↔ V) → (X → ¬ T ∧ ¬ V) →
  (B1 ↔ S ∧ T) ∧ (B2 ↔ S ∧ V) ∧ (B3 ↔ I ∧ T) ∧ (B4 ↔ I ∧ V)
  ∧ (X → ¬ B1 ∧ ¬ B2 ∧ ¬ B3 ∧ ¬ B4).
Proof. tauto. Qed.

End DataModuleSplitFacts.

(** X15.  A frame in the directory of case number [i], 0 <= i < 210, is
    kept for training exactly when it was found and [i] is a training
    index, and for validation exactly when it was found and [i] is a
    validation index; frames of the five test cases are kept for
    neither. *)
Theorem setup_sorts_frames_by_case
    (segs images : list DataModule.frame) (f : DataModule.frame) (i : Z) :
  0 ≤ i < 210 →
  DataModule.parents1_name f = DataModule.case_name i →
  let d := DataModule.setup segs images in
  (f ∈ DataModule.train_segs d ↔ f ∈ segs ∧ i ∈ DataModule.train_indices)
  ∧ (f ∈ DataModule.val_segs d ↔ f ∈ segs ∧ i ∈ DataModule.val_indices)
  ∧ (f ∈ DataModule.train_images d ↔ f ∈ images ∧ i ∈ DataModule.train_indices)
  ∧ (f ∈ DataModule.val_images d ↔ f ∈ images ∧ i ∈ DataModule.val_indices)
  ∧ (i ∈ DataModule.test_indices →
     (f ∉ DataModule.train_segs d) ∧ (f ∉ DataModule.val_segs d)
     ∧ (f ∉ DataModule.train_images d) ∧ (f ∉ DataModule.val_images d)).
Proof.
  intros Hi Hname d. subst d. unfold DataModule.setup.
  cbn [DataModule.train_segs DataModule.train_images
       DataModule.val_segs DataModule.val_images].
  pose proof DataModuleSplitFacts.case_names_by_index as Hcases.
  rewrite Forall_seqZ in Hcases. destruct (Hcases i) as [Ht Hv]; [lia|].
  clear Hcases. rewrite <- Hname in Ht, Hv.
  pose proof DataModuleSplitFacts.test_cases_unused as Hunused.
  rewrite list.Forall_forall in Hunused.
  eapply DataModuleSplitFacts.sort_logic;
    [exact (list_elem_of_filter _ segs f)
    |exact (list_elem_of_filter _ segs f)
    |exact (list_elem_of_filter _ images f)
    |exact (list_elem_of_filter _ images f)
    |exact Ht|exact Hv|].
  intros Htest. destruct (Hunused i Htest) as (? & ? & _). done.
Qed.

Lemma setup_sorts_frames_by_case_witness :
  {| DataModule.case_dir := "case_00007"; DataModule.frames_dir := "imaging_frames";
     DataModule.file_name := "0001.jpg" |}
  ∈ DataModule.val_images
      (DataModule.setup []
         [ {| DataModule.case_dir := "case_00007";
              DataModule.frames_dir := "imaging_frames";
              DataModule.file_name := "0001.jpg" |} ])
  ↔ {| DataModule.case_dir := "case_00007"; DataModule.frames_dir := "imaging_frames";
       DataModule.file_name := "0001.jpg" |}
    ∈ [ {| DataModule.case_dir := "case_00007";
           DataModule.frames_dir := "imaging_frames";
           DataModule.file_name := "0001.jpg" |} ]
    ∧ 7 ∈ DataModule.val_indices.
Proof.
  apply (setup_sorts_frames_by_case []
           [ {| DataModule.case_dir := "case_00007";
                DataModule.frames_dir := "imaging_frames";
                DataModule.file_name := "0001.jpg" |} ]
           {| DataModule.case_dir := "case_00007";
              DataModule.frames_dir := "imaging_frames";
              DataModule.file_name := "0001.jpg" |} 7).
  - lia.
  - reflexivity.
Defined.
